(** * Phishing-Detection-Methods: the feed watcher and the blacklist server

    A shallow embedding of

    - [src/blacklist/blacklist-server.py]: [chunks], [request_gsb_api],
      [write_analyzed_urls_to_csv], [ingest_urls];
    - [src/data-collection/pull-openphish-feed.py]: [run], [git_pull],
      [get_new_entries], [write_new_entries] and the watcher loop of [main].

    Python exceptions are values of [exn] carried by [result]; the outside
    world (the clock, the Safe Browsing service, git, the feed file, the
    blacklist server, the keyboard) is passed in explicitly; files are
    passed through as values.  Definitions come first, theorems after. *)

From Stdlib Require Import String Ascii ZArith Arith Lia Bool List.
From Stdlib Require Import DecimalString.
From Equations Require Import Equations.
Import ListNotations.

Local Open Scope string_scope.
Local Open Scope list_scope.
Local Open Scope nat_scope.

(* ================================================================== *)
(** * Part I: definitions *)
(* ================================================================== *)

(** ** Exceptions *)

(** The exceptions the modelled code can raise.  [KeyError] carries the
    labels that were not found. *)
Inductive exn : Type :=
| KeyError (missing : list string)
| IndexingError
| AttributeError
| TypeError
| ValueError
| JSONDecodeError
| RequestException
| RuntimeError
| OSError.

Inductive result (A : Type) : Type :=
| Ok (a : A)
| Raise (e : exn).
Arguments Ok {A} a.
Arguments Raise {A} e.

Definition bind {A B} (m : result A) (k : A -> result B) : result B :=
  match m with
  | Ok a => k a
  | Raise e => Raise e
  end.

Notation "x <- m ;; k" := (bind m (fun x => k))
  (at level 61, m at next level, right associativity).

Definition is_ok {A} (m : result A) : bool :=
  match m with
  | Ok _ => true
  | Raise _ => false
  end.

(** ** Strings *)

(** A [str] is the string of its code points, each below 256.  The
    characters [str.strip()] removes are those of [str.isspace]: among
    the code points below 256 these are TAB..CR, FS..US, the space,
    NEL (U+0085) and the no-break space (U+00A0). *)
Definition isspace (c : ascii) : bool :=
  let n := nat_of_ascii c in
  ((9 <=? n) && (n <=? 13)) || ((28 <=? n) && (n <=? 32)) ||
  (n =? 133) || (n =? 160).

Fixpoint lstrip (s : string) : string :=
  match s with
  | EmptyString => EmptyString
  | String c s' => if isspace c then lstrip s' else s
  end.

Fixpoint rstrip (s : string) : string :=
  match s with
  | EmptyString => EmptyString
  | String c s' =>
      match rstrip s' with
      | EmptyString => if isspace c then EmptyString else String c EmptyString
      | t => String c t
      end
  end.

(** [s.strip()] *)
Definition strip (s : string) : string := rstrip (lstrip s).

Definition list_eqb {A} (eqb : A -> A -> bool) : list A -> list A -> bool :=
  fix go (xs ys : list A) : bool :=
    match xs, ys with
    | [], [] => true
    | x :: xs', y :: ys' => eqb x y && go xs' ys'
    | _, _ => false
    end.

(** ** [chunks] (blacklist-server.py, lines 25-34) *)

Definition inspect {A} (a : A) : {b : A | a = b} := exist _ a eq_refl.

(** [seq] stands for the iterator [it]: the elements not yet consumed.
    [itertools.islice(it, size)] takes [firstn size] of them and leaves
    [skipn size]; an empty batch breaks out of the loop.  A non-empty
    batch leaves a shorter iterator, so the loop terminates. *)
Equations chunks {A} (seq : list A) (size : nat) : list (list A)
  by wf (length seq) lt :=
  chunks seq size with inspect (firstn size seq) => {
    | exist _ [] _ := [];
    | exist _ (x :: b) H := (x :: b) :: chunks (skipn size seq) size }.
Next Obligation.
  rewrite length_skipn.
  destruct size; [discriminate|]. destruct seq; [discriminate|]. simpl. lia.
Qed.

(** [enumerate(xs, start)] *)
Fixpoint enumerate {A} (xs : list A) (start : nat) : list (nat * A) :=
  match xs with
  | [] => []
  | x :: xs' => (start, x) :: enumerate xs' (S start)
  end.

(** ** JSON values, as [r.json()] returns them *)

(** Numbers are modelled by integers; a [dict] is the list of its items
    in insertion order. *)
#[warnings="-register-all"]
Inductive json : Type :=
| JNull
| JBool (b : bool)
| JNum (n : Z)
| JStr (s : string)
| JArr (xs : list json)
| JObj (items : list (string * json)).

(** Python truth value: [None], [False], [0], the empty string, list and
    dict are false. *)
Definition truthy (j : json) : bool :=
  match j with
  | JNull => false
  | JBool b => b
  | JNum n => negb (n =? 0)%Z
  | JStr s => negb (String.eqb s "")
  | JArr xs => match xs with [] => false | _ => true end
  | JObj items => match items with [] => false | _ => true end
  end.

(** [a or b] *)
Definition py_or (a b : json) : json := if truthy a then a else b.

Fixpoint dict_lookup (items : list (string * json)) (k : string) : option json :=
  match items with
  | [] => None
  | (k', v) :: rest => if String.eqb k' k then Some v else dict_lookup rest k
  end.

(** [j.get(k, default)]: only a dict has [get]. *)
Definition py_get (j : json) (k : string) (default : json) : result json :=
  match j with
  | JObj items =>
      Ok (match dict_lookup items k with Some v => v | None => default end)
  | _ => Raise AttributeError
  end.

(** [for x in j]: a list yields its elements, a dict its keys, a string
    its characters; nothing else is iterable. *)
Definition py_iter (j : json) : result (list json) :=
  match j with
  | JArr xs => Ok xs
  | JObj items => Ok (map (fun kv => JStr (fst kv)) items)
  | JStr s => Ok (map (fun c => JStr (String c EmptyString)) (list_ascii_of_string s))
  | _ => Raise TypeError
  end.

(** Only scalars can be dict keys: [hash] of a list or dict raises. *)
Definition hashable (j : json) : bool :=
  match j with
  | JArr _ | JObj _ => false
  | _ => true
  end.

Definition as_number (j : json) : option Z :=
  match j with
  | JBool b => Some (if b then 1 else 0)%Z
  | JNum n => Some n
  | _ => None
  end.

(** Equality of dict keys: [True == 1], otherwise by type and value. *)
Definition key_eqb (a b : json) : bool :=
  match a, b with
  | JNull, JNull => true
  | JStr s, JStr t => String.eqb s t
  | _, _ =>
      match as_number a, as_number b with
      | Some m, Some n => (m =? n)%Z
      | _, _ => false
      end
  end.

(** ** [defaultdict(list)] keyed by JSON scalars *)

Definition defaultdict : Type := list (json * list json).

(** [d[k].append(v)] *)
Fixpoint dd_append (d : defaultdict) (k v : json) : defaultdict :=
  match d with
  | [] => [(k, [v])]
  | (k', vs) :: rest =>
      if key_eqb k' k then (k', vs ++ [v]) :: rest
      else (k', vs) :: dd_append rest k v
  end.

(** [d.get(k, [])] *)
Fixpoint dd_get (d : defaultdict) (k : json) : list json :=
  match d with
  | [] => []
  | (k', vs) :: rest => if key_eqb k' k then vs else dd_get rest k
  end.

(** ** [request_gsb_api] (blacklist-server.py, lines 37-99) *)

(** One element of [all_rows]. *)
Record ResultRow : Type := {
  request_url : string;
  match_obj : json;
  match_json_obj : string;
  request_time : string;
  label : Z
}.

(** The frame [pd.DataFrame(all_rows, columns=[...])]. *)
Record ResultFrame : Type := {
  result_columns : list string;
  result_rows : list ResultRow
}.

(** What [requests.post(...)] followed by [r.json()] can meet: an exception
    of [requests] (no connection, timeout), or a reply with a status code
    and a body that decodes to JSON or does not. *)
Inductive http_reply : Type :=
| ConnectionFailed
| Replied (status : Z) (body : option json).

(** What [out_df.to_csv(csv_path, mode="a", ...)] meets at the path of
    the ledger: the file can be opened and written, or the call raises
    [OSError] (no directory [../data/evaluation], no permission, a full
    disk) and leaves at the path whatever it had got to by then. *)
Inductive disk : Type :=
| Writable
| WriteFails (left_behind : option (list (list string))).

(** The world of the blacklist server: the reading of the clock before
    the [i]-th request, the service's answer to the [i]-th request for a
    batch, [json.dumps(_, ensure_ascii=False)], and the disk under the
    ledger. *)
Record gsb_world : Type := {
  clock : nat -> string;
  gsb : nat -> list string -> http_reply;
  dumps : json -> string;
  ledger_disk : disk
}.

(** Lines 66-71: [by_url[url].append(match)] for every match. *)
Fixpoint collect_by_url (matches : list json) (by_url : defaultdict)
  : result defaultdict :=
  match matches with
  | [] => Ok by_url
  | m :: rest =>
      t <- py_get m "threat" JNull ;;
      let thread := py_or t (JObj []) in
      url <- py_get thread "url" JNull ;;
      if hashable url
      then collect_by_url rest (dd_append by_url url m)
      else Raise TypeError
  end.

(** Lines 74-95: the output object of one input url. *)
Definition label_url (dumps : json -> string) (by_url : defaultdict)
    (batch_request_time : string) (u : string) : ResultRow :=
  match dd_get by_url (JStr u) with
  | match_obj :: _ =>
      {| request_url := u;
         match_obj := match_obj;
         match_json_obj := dumps match_obj;
         request_time := batch_request_time;
         label := 0 |}
  | [] =>
      {| request_url := u;
         match_obj := JObj [];
         match_json_obj := "{}";
         request_time := batch_request_time;
         label := 1 |}
  end.

(** Lines 62-95 for one batch, from the decoded [response]. *)
Definition label_batch (dumps : json -> string) (response : json)
    (batch_request_time : string) (batch : list string)
  : result (list ResultRow) :=
  ms <- py_get response "matches" (JArr []) ;;
  matches <- py_iter (py_or ms (JArr [])) ;;
  by_url <- collect_by_url matches [] ;;
  Ok (map (label_url dumps by_url batch_request_time) batch).

(** The [for] loop of lines 45-95 over the enumerated batches.  [sent]
    lists the batches posted so far, [all_rows] the rows collected; the
    status code of a reply is never read. *)
Fixpoint gsb_loop (w : gsb_world) (batches : list (nat * list string))
    (sent : list (list string)) (all_rows : list ResultRow)
  : list (list string) * result (list ResultRow) :=
  match batches with
  | [] => (sent, Ok all_rows)
  | (i, batch) :: rest =>
      let batch_request_time := clock w i in
      match gsb w i batch with
      | ConnectionFailed => (sent ++ [batch], Raise RequestException)
      | Replied _ None => (sent ++ [batch], Raise JSONDecodeError)
      | Replied _ (Some response) =>
          match label_batch (dumps w) response batch_request_time batch with
          | Raise e => (sent ++ [batch], Raise e)
          | Ok rows => gsb_loop w rest (sent ++ [batch]) (all_rows ++ rows)
          end
      end
  end.

Definition gsb_columns : list string :=
  ["request_url"; "match_obj"; "match_json_obj"; "request_time"; "label"].

(** [request_gsb_api(url_list)]: the requests it posted, and its return
    value or the exception it raised. *)
Definition request_gsb_api (w : gsb_world) (url_list : list string)
  : list (list string) * result ResultFrame :=
  let (sent, r) := gsb_loop w (enumerate (chunks url_list 500) 1) [] [] in
  (sent, all_rows <- r ;;
         Ok {| result_columns := gsb_columns; result_rows := all_rows |}).

(** ** Feed snapshots (pull-openphish-feed.py) *)

(** A frame read by [pd.read_csv(csv_path, dtype=str, keep_default_na=False)]:
    pairwise distinct column labels, the default index [0..n-1], and in
    every row one string per column.  The index is not represented: the
    frames the watcher reads all have the default one.  The frame
    [get_new_entries] returns keeps the index labels of the rows it
    selects; what consumes it ([empty], [len], [reindex], [to_csv] with
    [index=False], [to_dict(orient="records")]) does not look at them,
    and it is never given back to [get_new_entries]. *)
Record DataFrame : Type := {
  columns : list string;
  rows : list (list string)
}.

Definition row_eqb : list string -> list string -> bool := list_eqb String.eqb.

Definition mem_row (r : list string) (rs : list (list string)) : bool :=
  existsb (row_eqb r) rs.

Definition mem_label (c : string) (cs : list string) : bool :=
  existsb (String.eqb c) cs.

(** Position of a label among the columns. *)
Fixpoint get_loc (cs : list string) (c : string) : nat :=
  match cs with
  | [] => 0
  | c' :: cs' => if String.eqb c' c then 0 else S (get_loc cs' c)
  end.

(** The cells of the row [r] of a frame with the columns [have], under
    the labels [want]. *)
Definition take_columns (have want : list string) (r : list string) : list string :=
  map (fun c => nth (get_loc have c) r "") want.

(** [df[cols]]: the frame restricted to [cols], in the order of [cols];
    a label that is not a column raises [KeyError]. *)
Definition getitem (df : DataFrame) (cols : list string) : result DataFrame :=
  match filter (fun c => negb (mem_label c (columns df))) cols with
  | [] =>
      Ok {| columns := cols;
            rows := map (take_columns (columns df) cols) (rows df) |}
  | missing => Raise (KeyError missing)
  end.

(** Lines 81-84: every column of these frames holds strings, so every
    cell is stripped. *)
Definition normalize_strings (df : DataFrame) : DataFrame :=
  {| columns := columns df; rows := map (map strip) (rows df) |}.

(** [df.drop_duplicates()]: the first occurrence of every row stays. *)
Fixpoint drop_duplicates_from (seen rs : list (list string)) : list (list string) :=
  match rs with
  | [] => []
  | r :: rs' =>
      if mem_row r seen then drop_duplicates_from seen rs'
      else r :: drop_duplicates_from (r :: seen) rs'
  end.

Definition drop_duplicates (rs : list (list string)) : list (list string) :=
  drop_duplicates_from [] rs.

(** The [_merge] column of a left merge. *)
Inductive indicator : Type := left_only | both.

Definition is_left_only (i : indicator) : bool :=
  match i with
  | left_only => true
  | both => false
  end.



(** The rows of [left.merge(right, on=all columns, how="left",
    indicator=True)] for frames [indicator_pre_merge] accepts: in the
    order of [left], one row per matching row of [right], and one row
    marked [left_only] when there is none. *)
Definition merge_left_indicator (left right : list (list string))
  : list (list string * indicator) :=
  flat_map
    (fun l =>
       match filter (row_eqb l) right with
       | [] => [(l, left_only)]
       | matching => map (fun _ => (l, both)) matching
       end)
    left.

Fixpoint select_mask {A} (rs : list A) (mask : list bool) : list A :=
  match rs, mask with
  | r :: rs', b :: mask' =>
      if b then r :: select_mask rs' mask' else select_mask rs' mask'
  | _, _ => []
  end.

(** [df.loc[mask]] for a frame and a boolean series that both have the
    default index: the mask is aligned with the index of [df], and a mask
    that does not cover it raises.  (For a frame with other index labels
    the alignment is by label, which this function does not describe.) *)
Definition loc_mask (df : DataFrame) (mask : list bool) : result DataFrame :=
  if length mask <? length (rows df) then Raise IndexingError
  else Ok {| columns := columns df; rows := select_mask (rows df) mask |}.

(** [get_new_entries(prev_df, act_df)], lines 71-102, for snapshots none
    of whose columns has one of the [indicator_labels]; the function for
    any labels is [get_new_entries_checked] below.  (The console line is
    written by the caller in this model, see [cycle].) *)
Definition get_new_entries (prev_df act_df : DataFrame) : result DataFrame :=
  let cols := columns prev_df in
  act_aligned <- getitem act_df cols ;;
  prev_aligned <- getitem prev_df cols ;;
  let act_aligned := normalize_strings act_aligned in
  let prev_aligned := normalize_strings prev_aligned in
  let merged :=
    merge_left_indicator (rows act_aligned) (drop_duplicates (rows prev_aligned)) in
  let new_mask := map (fun m => is_left_only (snd m)) merged in
  loc_mask act_aligned new_mask.


(** [df.empty]: no row or no column. *)
Definition empty (df : DataFrame) : bool :=
  match rows df, columns df with
  | [], _ | _, [] => true
  | _, _ => false
  end.

(** ** CSV files *)

(** A CSV file is the list of its records; every record takes at least
    its line terminator, so the file has size 0 exactly when it has no
    record.  A path holds a file or nothing. *)
Definition csv_file : Type := list (list string).
Definition path_state : Type := option csv_file.

Definition exists_ (p : path_state) : bool :=
  match p with
  | Some _ => true
  | None => false
  end.

Definition st_size_is_0 (p : path_state) : bool :=
  match p with
  | Some [] => true
  | _ => false
  end.

(** [df.to_csv(path, mode="a", header=header, index=False)]: opens the
    path for appending (creating the file) and writes the header line
    when asked, then one line per row. *)
Definition to_csv_append (p : path_state) (header : bool)
    (cols : list string) (records : list (list string)) : path_state :=
  Some ((match p with Some f => f | None => [] end)
          ++ (if header then [cols] else []) ++ records).

(** [write_header = not path.exists() or path.stat().st_size == 0] *)
Definition write_header_for (p : path_state) : bool :=
  negb (exists_ p) || st_size_is_0 p.

(** [df.reindex(columns=cols)]: the columns [cols] in that order, a
    column the frame lacks filled with NaN, which [to_csv] writes as the
    empty string. *)
Definition reindex (df : DataFrame) (cols : list string) : DataFrame :=
  {| columns := cols;
     rows := map (fun r =>
                    map (fun c => if mem_label c (columns df)
                                  then nth (get_loc (columns df) c) r ""
                                  else "")
                        cols)
                 (rows df) |}.

(** [write_new_entries(new_entries)], lines 105-125, on the state of
    [evaluation-feed.csv], for a file whose first line is a header as
    this function writes it (distinct labels, none empty), which
    [pd.read_csv(output, nrows=0)] gives back unchanged. *)
Definition write_new_entries (output : path_state) (new_entries : DataFrame)
  : path_state :=
  let write_header := write_header_for output in
  let cols :=
    match output with
    | Some (header_line :: _) => header_line
    | _ => columns new_entries
    end in
  let new_entries := reindex new_entries cols in
  to_csv_append output write_header (columns new_entries) (rows new_entries).

(** ** [write_analyzed_urls_to_csv] and [ingest_urls] (blacklist-server.py) *)

(** A record of the request frame [df_request]: what the watcher posts,
    three strings. *)
Record UrlRecord : Type := {
  url : string;
  discover_time : string;
  pulled_time : string
}.

(** A row of [merged]: a row of [res] with its stripped url, and the
    columns of the matching row of [req], NaN ([None]) when there is
    none. *)
Record MergedRow : Type := {
  merged_url : string;
  merged_res : ResultRow;
  merged_discover_time : option string;
  merged_pulled_time : option string
}.

(** A row of [out_df], in the order of [out_cols]. *)
Record LedgerRow : Type := {
  out_url : string;
  out_match_json_obj : string;
  out_discover_time : string;
  out_pulled_time : string;
  out_request_time : string;
  out_label : Z
}.

Definition out_cols : list string :=
  ["url"; "match_json_obj"; "discover_time"; "pulled_time"; "request_time"; "label"].

(** [res.merge(req, on="url", how="left")]: the rows of [res] in their
    order, each once per row of [req] with the same url, and once with
    NaN when no row of [req] has it. *)
Definition merge_left_on_url (res : list (string * ResultRow)) (req : list UrlRecord)
  : list MergedRow :=
  flat_map
    (fun ur =>
       match filter (fun q => String.eqb (url q) (fst ur)) req with
       | [] =>
           [{| merged_url := fst ur; merged_res := snd ur;
               merged_discover_time := None; merged_pulled_time := None |}]
       | matching =>
           map (fun q =>
                  {| merged_url := fst ur; merged_res := snd ur;
                     merged_discover_time := Some (discover_time q);
                     merged_pulled_time := Some (pulled_time q) |})
               matching
       end)
    res.

(** [fillna("")] on one cell *)
Definition fillna (c : option string) : string :=
  match c with
  | Some s => s
  | None => ""
  end.

Definition out_row (m : MergedRow) : LedgerRow :=
  {| out_url := merged_url m;
     out_match_json_obj := match_json_obj (merged_res m);
     out_discover_time := fillna (merged_discover_time m);
     out_pulled_time := fillna (merged_pulled_time m);
     out_request_time := request_time (merged_res m);
     out_label := label (merged_res m) |}.

(** The CSV record of a ledger row. *)
Definition csv_record (r : LedgerRow) : list string :=
  [out_url r; out_match_json_obj r; out_discover_time r; out_pulled_time r;
   out_request_time r; NilZero.string_of_int (Z.to_int (out_label r))].

(** [write_analyzed_urls_to_csv(df_request, df_response)], lines 102-139,
    on the state of [blacklist-evaluation-results.csv], when the file
    can be written: the new state of the file and the returned [out_df].
    ([ingest_urls] has the case of a disk that refuses the write.) *)
Definition write_analyzed_urls_to_csv (csv_path : path_state)
    (df_request : list UrlRecord) (df_response : ResultFrame)
  : path_state * list LedgerRow :=
  let req :=
    map (fun q => {| url := strip (url q);
                     discover_time := discover_time q;
                     pulled_time := pulled_time q |})
        df_request in
  let res := map (fun r => (strip (request_url r), r)) (result_rows df_response) in
  let merged := merge_left_on_url res req in
  let out_df := map out_row merged in
  let write_header := write_header_for csv_path in
  (to_csv_append csv_path write_header out_cols (map csv_record out_df), out_df).

(** [ingest_urls()], lines 142-160, for a body that is a list of records
    of three strings: the new state of the file, the batches posted to
    the service, and the written rows or the exception raised.  The
    write of line 156 raises when the disk refuses it. *)
Definition ingest_urls (w : gsb_world) (csv_path : path_state) (data : list UrlRecord)
  : path_state * list (list string) * result (list LedgerRow) :=
  let req_df := data in
  let urls :=
    map (fun x => strip (url x))
        (filter (fun x => negb (String.eqb (url x) "")) data) in
  match request_gsb_api w urls with
  | (sent, Raise e) => (csv_path, sent, Raise e)
  | (sent, Ok res_df) =>
      match ledger_disk w with
      | Writable =>
          let (csv_path', written_data) :=
            write_analyzed_urls_to_csv csv_path req_df res_df in
          (csv_path', sent, Ok written_data)
      | WriteFails left_behind => (left_behind, sent, Raise OSError)
      end
  end.

(** ** The watcher (pull-openphish-feed.py, [main]) *)

(** [run(cmd)] given the exit status of the command, lines 31-41. *)
Definition run (returncode : Z) : result unit :=
  if (returncode =? 0)%Z then Ok tt else Raise RuntimeError.

(** [git_pull(local_dir)] given the exit status of [git pull]. *)
Definition git_pull (returncode : Z) : result unit := run returncode.

(** What [requests.post(BLACKLIST_SERVER_URL, ...)] can meet. *)
Inductive post_reply : Type :=
| PostFailed
| PostStatus (status_code : Z).

(** What the outside world does during one iteration of the loop, for a
    checkout whose [feed.csv], when it is there, is a CSV file that
    [read_csv] parses ([feed_csv] is the frame it reads), and for an
    [evaluation-feed.csv] that only this program writes.  A [feed.csv]
    that [read_csv] refuses ([EmptyDataError], [ParserError]) is not
    among these worlds. *)
Record cycle_world : Type := {
  pull_time : string;
  pull_returncode : Z;
  feed_csv : option DataFrame;
  disk_writable : bool;
  blacklist_server : post_reply;
  keyboard_interrupt : bool
}.

Inductive console_line : Type :=
| PullRepository (t : string)
| FeedFileNotFound
| NoNewEntries
| NewEntriesFound (n : nat)
| WritingNewEntries
| SendNewEntries (n : nat)
| RequestFailed
| RequestExceptionPrinted
| ColsMissing (n : nat)
| Sleeping
| StoppedByUser.

(** The state of the process: the frame held in memory, the file
    [evaluation-feed.csv], what was printed and what was posted to the
    blacklist server. *)
Record watcher : Type := {
  prev_df : DataFrame;
  evaluation_feed : path_state;
  console : list console_line;
  posted : list (list UrlRecord)
}.

Definition print (w : watcher) (l : console_line) : watcher :=
  {| prev_df := prev_df w; evaluation_feed := evaluation_feed w;
     console := console w ++ [l]; posted := posted w |}.

Definition set_prev_df (w : watcher) (df : DataFrame) : watcher :=
  {| prev_df := df; evaluation_feed := evaluation_feed w;
     console := console w; posted := posted w |}.

Definition set_evaluation_feed (w : watcher) (p : path_state) : watcher :=
  {| prev_df := prev_df w; evaluation_feed := p;
     console := console w; posted := posted w |}.

Definition post (w : watcher) (payload : list UrlRecord) : watcher :=
  {| prev_df := prev_df w; evaluation_feed := evaluation_feed w;
     console := console w; posted := posted w ++ [payload] |}.

(** Where one iteration leaves the process: back at the head of the
    loop, after the [break], or with an exception nobody caught. *)
Inductive outcome : Type :=
| Running (w : watcher)
| Stopped (w : watcher)
| Crashed (e : exn) (w : watcher).

Fixpoint map_result {A B} (f : A -> result B) (xs : list A) : result (list B) :=
  match xs with
  | [] => Ok []
  | x :: xs' => y <- f x ;; ys <- map_result f xs' ;; Ok (y :: ys)
  end.

(** Lines 196-216: the payload for the blacklist server and the request.
    [utc_to_berlin] (lines 20-28) depends on the time zone database and
    is a parameter; it raises [ValueError] on a malformed time. *)
Definition send_new_entries (utc_to_berlin : string -> result string)
    (cw : cycle_world) (w : watcher) (new_entries : DataFrame) : outcome :=
  let cols := ["url"; "discover_time"] in
  let missing_cols :=
    filter (fun c => negb (mem_label c (columns new_entries))) cols in
  match missing_cols with
  | [] =>
      let cell c r := nth (get_loc (columns new_entries) c) r "" in
      match map_result
              (fun r => t <- utc_to_berlin (cell "discover_time" r) ;;
                        Ok {| url := cell "url" r;
                              discover_time := t;
                              pulled_time := pull_time cw |})
              (rows new_entries) with
      | Raise e => Crashed e w
      | Ok payload =>
          let w := print w (SendNewEntries (length payload)) in
          let w := post w payload in
          match blacklist_server cw with
          | PostFailed => Running (print w RequestExceptionPrinted)
          | PostStatus status_code =>
              if (status_code =? 200)%Z then Running w
              else Running (print w RequestFailed)
          end
      end
  | _ => Running (print w (ColsMissing (length (rows new_entries))))
  end.

(** Lines 219-224: the sleep at the end of the [else] branch. *)
Definition sleep (cw : cycle_world) (w : watcher) : outcome :=
  let w := print w Sleeping in
  if keyboard_interrupt cw then Stopped (print w StoppedByUser) else Running w.

(** One iteration of [while True], lines 170-224. *)
Definition cycle (utc_to_berlin : string -> result string)
    (cw : cycle_world) (w : watcher) : outcome :=
  let w := print w (PullRepository (pull_time cw)) in
  match git_pull (pull_returncode cw) with
  | Raise e => Crashed e w
  | Ok _ =>
      match feed_csv cw with
      | None => Running (print w FeedFileNotFound)
      | Some act_df =>
          match get_new_entries (prev_df w) act_df with
          | Raise e => Crashed e w
          | Ok new_entries =>
              let w :=
                print w (if empty new_entries then NoNewEntries
                         else NewEntriesFound (length (rows new_entries))) in
              let w := set_prev_df w act_df in
              if empty new_entries then sleep cw w
              else
                let w := print w WritingNewEntries in
                if disk_writable cw then
                  let w :=
                    set_evaluation_feed w
                      (write_new_entries (evaluation_feed w) new_entries) in
                  match send_new_entries utc_to_berlin cw w new_entries with
                  | Running w => sleep cw w
                  | o => o
                  end
                else Crashed OSError w
          end
      end
  end.

(** The loop over the iterations the world lets happen: [Running] when
    the process is still in the loop after them. *)
Fixpoint watch (utc_to_berlin : string -> result string)
    (world : list cycle_world) (w : watcher) : outcome :=
  match world with
  | [] => Running w
  | cw :: rest =>
      match cycle utc_to_berlin cw w with
      | Running w' => watch utc_to_berlin rest w'
      | o => o
      end
  end.

(** ** The words of the specification, for comparison *)

(** A match object references the url [u]: its [threat] is an object
    whose [url] is the string [u]. *)
Definition references (u : string) (m : json) : bool :=
  match m with
  | JObj items =>
      match dict_lookup items "threat" with
      | Some (JObj threat) =>
          match dict_lookup threat "url" with
          | Some (JStr s) => String.eqb s u
          | _ => false
          end
      | _ => false
      end
  | _ => false
  end.

(** The match list of a response, in response-array order. *)
Definition matches_of (response : json) : list json :=
  match response with
  | JObj items =>
      match dict_lookup items "matches" with
      | Some (JArr xs) => xs
      | _ => []
      end
  | _ => []
  end.

(** The result for the url [u] in the words of the specification: label
    0 and the first match of the response that references [u] when there
    is one, label 1 and the empty object otherwise. *)
Definition expected_result (dumps : json -> string) (response : json)
    (batch_request_time : string) (u : string) : ResultRow :=
  match find (references u) (matches_of response) with
  | Some m =>
      {| request_url := u; match_obj := m; match_json_obj := dumps m;
         request_time := batch_request_time; label := 0 |}
  | None =>
      {| request_url := u; match_obj := JObj []; match_json_obj := "{}";
         request_time := batch_request_time; label := 1 |}
  end.

(** A match object the loop of lines 68-71 gets through. *)
Definition well_formed_match (m : json) : bool :=
  match m with
  | JObj items =>
      match dict_lookup items "threat" with
      | Some (JObj ((k, v) :: threat)) =>
          match dict_lookup ((k, v) :: threat) "url" with
          | Some url => hashable url
          | None => true
          end
      | Some t => negb (truthy t)
      | None => true
      end
  | _ => false
  end.

(** A response lines 67-71 get through: an object whose [matches], when
    present and not false, is a list of such match objects. *)
Definition well_formed_response (response : json) : bool :=
  match response with
  | JObj items =>
      match dict_lookup items "matches" with
      | Some (JArr xs) => forallb well_formed_match xs
      | Some ms => negb (truthy ms)
      | None => true
      end
  | _ => false
  end.

Definition reply_body (r : http_reply) : json :=
  match r with
  | Replied _ (Some response) => response
  | _ => JNull
  end.

Definition well_formed_reply (r : http_reply) : bool :=
  match r with
  | Replied _ (Some response) => well_formed_response response
  | _ => false
  end.

(** The rows the specification expects for the [i]-th batch. *)
Definition expected_rows (w : gsb_world) (ib : nat * list string) : list ResultRow :=
  map (expected_result (dumps w) (reply_body (gsb w (fst ib) (snd ib)))
         (clock w (fst ib)))
      (snd ib).

(** The exception a reply makes lines 61-62 raise: [requests.post]
    fails, or [r.json()] cannot decode the body. *)
Definition failure_of (r : http_reply) : option exn :=
  match r with
  | ConnectionFailed => Some RequestException
  | Replied _ None => Some JSONDecodeError
  | Replied _ (Some _) => None
  end.

(** The reply with its status code replaced by 200. *)
Definition with_status_200 (r : http_reply) : http_reply :=
  match r with
  | Replied _ body => Replied 200 body
  | ConnectionFailed => ConnectionFailed
  end.

Definition world_with_status_200 (w : gsb_world) : gsb_world :=
  {| clock := clock w;
     gsb := fun i batch => with_status_200 (gsb w i batch);
     dumps := dumps w;
     ledger_disk := ledger_disk w |}.


(** The frames [read_csv] produces: distinct labels, full rows. *)
Definition well_formed_frame (df : DataFrame) : Prop :=
  NoDup (columns df) /\
  Forall (fun r => length r = length (columns df)) (rows df).

(** The watcher state an outcome carries. *)
Definition state_of (o : outcome) : watcher :=
  match o with
  | Running w | Stopped w | Crashed _ w => w
  end.

Definition contents (p : path_state) : csv_file :=
  match p with
  | Some f => f
  | None => []
  end.

(** The ledger after a sequence of calls of [write_analyzed_urls_to_csv],
    each with its request and response frame; a restart of the server
    between two calls changes nothing, the file is all the state. *)
Definition ledger_appends (csv_path : path_state)
    (calls : list (list UrlRecord * ResultFrame)) : path_state :=
  fold_left (fun p c => fst (write_analyzed_urls_to_csv p (fst c) (snd c)))
            calls csv_path.

(** The data lines one call writes. *)
Definition ledger_lines (c : list UrlRecord * ResultFrame) : list (list string) :=
  map csv_record (snd (write_analyzed_urls_to_csv None (fst c) (snd c))).

(** The column order [write_new_entries] uses: the header line of a
    non-empty file, else the columns of the frame. *)
Definition header_for (output : path_state) (df : DataFrame) : list string :=
  match output with
  | Some (header_line :: _) => header_line
  | _ => columns df
  end.

(** [evaluation-feed.csv] after a sequence of calls of [write_new_entries]. *)
Definition feed_appends (output : path_state) (frames : list DataFrame) : path_state :=
  fold_left write_new_entries frames output.

(** ** Further definitions for the properties of Part III *)


(** The watcher state only grew: the file, the console and the list of
    posted payloads are the old ones with something appended. *)
Definition grows (w w' : watcher) : Prop :=
  (exists lines, contents (evaluation_feed w') = contents (evaluation_feed w) ++ lines) /\
  (exists printed, console w' = console w ++ printed) /\
  (exists payloads, posted w' = posted w ++ payloads).

(** Two watcher states with the same frame in memory and the same file. *)
Definition same_files (w1 w2 : watcher) : Prop :=
  prev_df w1 = prev_df w2 /\ evaluation_feed w1 = evaluation_feed w2.

(** The records of a request body whose url [ingest_urls] sends to the
    service: those with a non-empty url. *)
Definition asked (data : list UrlRecord) : list UrlRecord :=
  filter (fun x => negb (String.eqb (url x) "")) data.

(** How many records of the request frame have the stripped url of a
    row of the response frame. *)
Definition requests_for (df_request : list UrlRecord) (r : ResultRow) : nat :=
  length (filter (fun q => String.eqb (strip (url q)) (strip (request_url r)))
                 df_request).

(** ** The first watcher (src/pull-openphish-feed.py, [main]) *)

(** One iteration of [while True], lines 150-182 of the file at the
    root: the loop of the later watcher without the request to the
    blacklist server.  The console lines stand for the printed texts,
    which differ in wording between the two files. *)
Definition first_cycle (cw : cycle_world) (w : watcher) : outcome :=
  let w := print w (PullRepository (pull_time cw)) in
  match git_pull (pull_returncode cw) with
  | Raise e => Crashed e w
  | Ok _ =>
      match feed_csv cw with
      | None => Running (print w FeedFileNotFound)
      | Some act_df =>
          match get_new_entries (prev_df w) act_df with
          | Raise e => Crashed e w
          | Ok new_entries =>
              let w :=
                print w (if empty new_entries then NoNewEntries
                         else NewEntriesFound (length (rows new_entries))) in
              let w := set_prev_df w act_df in
              if empty new_entries then sleep cw w
              else
                let w := print w WritingNewEntries in
                if disk_writable cw then
                  sleep cw
                    (set_evaluation_feed w
                       (write_new_entries (evaluation_feed w) new_entries))
                else Crashed OSError w
          end
      end
  end.

Fixpoint first_watch (world : list cycle_world) (w : watcher) : outcome :=
  match world with
  | [] => Running w
  | cw :: rest =>
      match first_cycle cw w with
      | Running w' => first_watch rest w'
      | o => o
      end
  end.

(** The outcome of the later watcher against that of the first one, on
    the same world: the same kind of outcome with the same frame and
    file, unless the later watcher crashed with an exception of
    [utc_to_berlin], which the first one never calls. *)
Definition agrees (utc_to_berlin : string -> result string)
    (first later : outcome) : Prop :=
  match first, later with
  | Running a, Running b => same_files a b
  | Stopped a, Stopped b => same_files a b
  | Crashed e a, Crashed e' b =>
      (e = e' /\ same_files a b) \/ (exists s, utc_to_berlin s = Raise e')
  | _, Crashed e' _ => exists s, utc_to_berlin s = Raise e'
  | _, _ => False
  end.

(** ** Lexical features (data-collection-and-transformation/feature-extractor.py) *)

(** An url is a [str]; as everywhere in this file its characters are
    8-bit codes, of which the regular expressions below single out the
    ASCII letters and digits. *)

(** [s.startswith(prefix)] *)
Fixpoint startswith (prefix s : string) : bool :=
  match prefix, s with
  | EmptyString, _ => true
  | String a prefix', String b s' => Ascii.eqb a b && startswith prefix' s'
  | String _ _, EmptyString => false
  end.

(** The scan of [s.count(sub)] for a non-empty [sub]: occurrences are
    counted from the left and do not overlap; [skip] is the number of
    characters of the last occurrence still to pass. *)
Fixpoint count_from (sub s : string) (skip : nat) : nat :=
  match s with
  | EmptyString => 0
  | String _ s' =>
      match skip with
      | S k => count_from sub s' k
      | 0 =>
          if startswith sub s
          then S (count_from sub s' (String.length sub - 1))
          else count_from sub s' 0
      end
  end.

(** [s.count(sub)], [sub] not empty *)
Definition str_count (s sub : string) : nat := count_from sub s 0.

(** Feature 1, lines 63-67 *)
Definition url_char_count (url : string) : nat := String.length url.

(** Feature 2, lines 71-75 *)
Definition url_slash_count (url : string) : nat := str_count url "/".

(** Feature 6, lines 111-115 *)
Definition url_dot_count (url : string) : nat := str_count url ".".

(** Feature 9, lines 149-153 *)
Definition url_dash_count (url : string) : nat := str_count url "-".

(** Feature 11, lines 170-174 *)
Definition url_double_slash_count (url : string) : nat := str_count url "//".

(** The character classes [[a-zA-Z]], [[0-9]] and [[^a-zA-Z0-9]] of
    lines 414-423. *)
Definition ascii_letter (c : ascii) : bool :=
  let n := nat_of_ascii c in
  ((65 <=? n) && (n <=? 90)) || ((97 <=? n) && (n <=? 122)).

Definition ascii_digit (c : ascii) : bool :=
  let n := nat_of_ascii c in (48 <=? n) && (n <=? 57).

Definition not_alphanumeric (c : ascii) : bool :=
  negb (ascii_letter c || ascii_digit c).

(** [re.findall(r'[...]+', text)] for a character class: the maximal
    runs of characters of the class, from left to right; [run] is the
    run being read. *)
Fixpoint findall_from (cls : ascii -> bool) (run text : string) : list string :=
  match text with
  | EmptyString =>
      match run with
      | EmptyString => []
      | _ => [run]
      end
  | String c text' =>
      if cls c then findall_from cls (run ++ String c EmptyString) text'
      else
        match run with
        | EmptyString => findall_from cls EmptyString text'
        | _ => run :: findall_from cls EmptyString text'
        end
  end.

Definition findall (cls : ascii -> bool) (text : string) : list string :=
  findall_from cls EmptyString text.

(** [max(best :: sequences, key=len)]: the first of the longest. *)
Fixpoint max_by_len (best : string) (sequences : list string) : string :=
  match sequences with
  | [] => best
  | s :: rest =>
      if String.length best <? String.length s then max_by_len s rest
      else max_by_len best rest
  end.

(** The helper of lines 408-410. *)
Definition get_longest_sequence_length (cls : ascii -> bool) (text : string) : nat :=
  match findall cls text with
  | [] => 0
  | s :: rest => String.length (max_by_len s rest)
  end.

(** Feature 26, lines 392-434: [calculate_char_continuation_rate]
    returns 0.0 for the empty url and otherwise the float quotient of
    these two integers, [total_longest_length / total_url_length]. *)
Definition total_longest_length (url : string) : nat :=
  get_longest_sequence_length ascii_letter url
  + get_longest_sequence_length ascii_digit url
  + get_longest_sequence_length not_alphanumeric url.

Definition total_url_length (url : string) : nat := String.length url.

(** ** The clean-up script (data/evaluation/filter-duplicate-and-unique-data.py) *)

(** A row of one of the two frames of the script: its [url] cell (after
    [astype(str)]) and its other cells. *)
Definition url_row : Type := (string * list string)%type.

(** Lines 10-11: [df["url"] = df["url"].astype(str).str.strip()] *)
Definition clean_urls (df : list url_row) : list url_row :=
  map (fun r => (strip (fst r), snd r)) df.

(** [df.drop_duplicates(subset="url")]: the first row of every url. *)
Fixpoint drop_duplicate_urls_from (seen : list string) (df : list url_row)
  : list url_row :=
  match df with
  | [] => []
  | r :: df' =>
      if mem_label (fst r) seen then drop_duplicate_urls_from seen df'
      else r :: drop_duplicate_urls_from (fst r :: seen) df'
  end.

(** Lines 19-29: [df[df["url"].isin(common_urls)].drop_duplicates(subset="url")],
    [common_urls] being the intersection of the two sets of urls. *)
Definition keep_common (urls_eval urls_black : list string) (df : list url_row)
  : list url_row :=
  drop_duplicate_urls_from []
    (filter (fun r => mem_label (fst r) urls_eval && mem_label (fst r) urls_black) df).

(** The script: the new contents of [evaluation-features.csv] and of
    [blacklist-evaluation-results.csv]. *)
Definition filter_duplicate_and_unique_data (eval_df black_df : list url_row)
  : list url_row * list url_row :=
  let eval_df := clean_urls eval_df in
  let black_df := clean_urls black_df in
  let urls_eval := map fst eval_df in
  let urls_black := map fst black_df in
  (keep_common urls_eval urls_black eval_df,
   keep_common urls_eval urls_black black_df).

(** ** Concrete inputs *)

Definition threat_match (u threat_type : string) : json :=
  JObj [("threatType", JStr threat_type);
        ("threat", JObj [("url", JStr u)])].

(** A service that flags [x.com] twice in every reply. *)
Definition flagging_world : gsb_world :=
  {| clock := fun _ => "01/02/25 10:00:00";
     gsb := fun _ _ =>
       Replied 200
         (Some (JObj [("matches",
                       JArr [threat_match "x.com" "MALWARE";
                             threat_match "x.com" "SOCIAL_ENGINEERING"])]));
     dumps := fun _ => "<match>";
     ledger_disk := Writable |}.

(** A service that refuses every request with status 403 and a JSON
    error body. *)
Definition forbidden_world : gsb_world :=
  {| clock := fun _ => "01/02/25 10:00:00";
     gsb := fun _ _ =>
       Replied 403
         (Some (JObj [("error",
                       JObj [("code", JNum 403);
                             ("status", JStr "PERMISSION_DENIED")])]));
     dumps := fun _ => "<match>";
     ledger_disk := Writable |}.

(** A service that cannot be reached. *)
Definition unreachable_world : gsb_world :=
  {| clock := fun _ => "01/02/25 10:00:00";
     gsb := fun _ _ => ConnectionFailed;
     dumps := fun _ => "<match>";
     ledger_disk := Writable |}.

(** Two snapshots with the same columns; the second has a url with a
    leading blank. *)
Definition empty_snapshot : DataFrame :=
  {| columns := ["url"; "discover_time"]; rows := [] |}.


(** The scenario of the specification: [a.com] is known, [b.com] is new. *)
Definition snapshot_a : DataFrame :=
  {| columns := ["url"; "discover_time"]; rows := [["a.com"; "t1"]] |}.

Definition snapshot_ab : DataFrame :=
  {| columns := ["url"; "discover_time"];
     rows := [["a.com"; "t1"]; ["b.com"; "t2"]] |}.

(** A snapshot with one column more than [snapshot_a]. *)
Definition snapshot_extra_column : DataFrame :=
  {| columns := ["url"; "discover_time"; "asn"];
     rows := [["a.com"; "t1"; "AS1"]; ["b.com"; "t2"; "AS2"]] |}.

(** A record the watcher discovered, and one with an empty url. *)
Definition record_a : UrlRecord :=
  {| url := "a.com"; discover_time := "01/02/25 09:00:00";
     pulled_time := "01/02/25 09:05:00" |}.

Definition record_without_url : UrlRecord :=
  {| url := ""; discover_time := "01/02/25 09:00:00";
     pulled_time := "01/02/25 09:05:00" |}.

Definition no_results : ResultFrame :=
  {| result_columns := gsb_columns; result_rows := [] |}.

(** A time conversion that leaves every time as it is. *)
Definition no_conversion (s : string) : result string := Ok s.

(** A watcher that has just started from an empty feed. *)
Definition fresh_watcher : watcher :=
  {| prev_df := empty_snapshot; evaluation_feed := None;
     console := []; posted := [] |}.

(** An iteration in which everything works and the feed holds [df]. *)
Definition quiet_cycle (t : string) (df : DataFrame) : cycle_world :=
  {| pull_time := t; pull_returncode := 0; feed_csv := Some df;
     disk_writable := true; blacklist_server := PostStatus 200;
     keyboard_interrupt := false |}.

(** An iteration in which [git pull] exits with status 1. *)
Definition failed_pull : cycle_world :=
  {| pull_time := "01/02/25 09:05:00"; pull_returncode := 1;
     feed_csv := Some snapshot_ab; disk_writable := true;
     blacklist_server := PostStatus 200; keyboard_interrupt := false |}.

(** An iteration in which the pull works and [feed.csv] is gone. *)
Definition feed_file_gone : cycle_world :=
  {| pull_time := "01/02/25 09:10:00"; pull_returncode := 0;
     feed_csv := None; disk_writable := true;
     blacklist_server := PostStatus 200; keyboard_interrupt := false |}.

(** An iteration in which the blacklist server cannot be reached. *)
Definition server_down (t : string) (df : DataFrame) : cycle_world :=
  {| pull_time := t; pull_returncode := 0; feed_csv := Some df;
     disk_writable := true; blacklist_server := PostFailed;
     keyboard_interrupt := false |}.

(** The unmatched result of the service for one url. *)
Definition unmatched (u : string) : ResultRow :=
  {| request_url := u; match_obj := JObj []; match_json_obj := "{}";
     request_time := "01/02/25 09:06:00"; label := 1 |}.

(** Results for [a.com] (with a trailing blank) and for a url nobody
    asked about. *)
Definition results_a_orphan : ResultFrame :=
  {| result_columns := gsb_columns;
     result_rows := [unmatched "a.com "; unmatched "orphan.com"] |}.

(** A snapshot without the [discover_time] column. *)
Definition url_only_snapshot : DataFrame :=
  {| columns := ["url"]; rows := [["a.com"]] |}.


(* ================================================================== *)
(** * Part II: theorems *)
(* ================================================================== *)

(** ** Strings and rows *)

Lemma row_eqb_eq (r s : list string) : row_eqb r s = true <-> r = s.
Proof.
  unfold row_eqb. revert s.
  induction r as [|x r IH]; intros [|y s]; simpl; split; intros H;
    try reflexivity; try discriminate.
  - apply andb_true_iff in H. destruct H as [Hx Hr].
    apply String.eqb_eq in Hx. apply IH in Hr. congruence.
  - injection H as -> ->. apply andb_true_iff. split.
    + apply String.eqb_refl.
    + apply IH. reflexivity.
Qed.

Lemma row_eqb_refl (r : list string) : row_eqb r r = true.
Proof. apply row_eqb_eq. reflexivity. Qed.

Lemma mem_row_In (r : list string) (rs : list (list string)) :
  mem_row r rs = true <-> In r rs.
Proof.
  unfold mem_row. rewrite existsb_exists. split.
  - intros [s [Hs Heq]]. apply row_eqb_eq in Heq. subst. exact Hs.
  - intros H. exists r. split; [exact H | apply row_eqb_refl].
Qed.

Lemma mem_label_In (c : string) (cs : list string) :
  mem_label c cs = true <-> In c cs.
Proof.
  unfold mem_label. rewrite existsb_exists. split.
  - intros [d [Hd Heq]]. apply String.eqb_eq in Heq. subst. exact Hd.
  - intros H. exists c. split; [exact H | apply String.eqb_refl].
Qed.

(** ** [chunks] *)

(** What is left of the iterator after a non-empty [islice] is shorter:
    the loop of [chunks] terminates. *)
Lemma islice_consumes {A} (size : nat) (seq : list A) (x : A) (b : list A) :
  firstn size seq = x :: b -> length (skipn size seq) < length seq.
Proof.
  intros H. rewrite length_skipn.
  destruct size; [discriminate|]. destruct seq; [discriminate|]. simpl. lia.
Qed.

Lemma chunks_step {A} (seq : list A) (size : nat) :
  chunks seq size =
  match firstn size seq with
  | [] => []
  | batch => batch :: chunks (skipn size seq) size
  end.
Proof.
  funelim (chunks seq size).
  - match goal with E : firstn _ _ = [] |- _ => rewrite E end. reflexivity.
  - match goal with E : firstn _ _ = _ :: _ |- _ => rewrite E end. reflexivity.
Qed.

Lemma chunks_nil {A} (size : nat) : chunks (@nil A) size = [].
Proof. rewrite chunks_step, firstn_nil. reflexivity. Qed.

(** Strong induction along the loop of [chunks]. *)
Lemma chunks_loop_ind {A} (size : nat) (P : list A -> list (list A) -> Prop) :
  (forall seq, firstn size seq = [] -> P seq []) ->
  (forall seq, firstn size seq <> [] ->
               P (skipn size seq) (chunks (skipn size seq) size) ->
               P seq (firstn size seq :: chunks (skipn size seq) size)) ->
  forall seq, P seq (chunks seq size).
Proof.
  intros Hstop Hstep seq.
  remember (length seq) as n eqn:Hn. revert seq Hn.
  induction n as [n IH] using lt_wf_ind. intros seq Hn.
  rewrite chunks_step.
  destruct (firstn size seq) as [|x b] eqn:E.
  - apply Hstop. exact E.
  - rewrite <- E. apply Hstep.
    + rewrite E. discriminate.
    + apply (IH (length (skipn size seq))); [|reflexivity].
      subst n. eapply islice_consumes. exact E.
Qed.

Lemma islice_empty {A} (size : nat) (seq : list A) :
  0 < size -> firstn size seq = [] -> seq = [].
Proof.
  intros Hsize E. destruct size; [lia|]. destruct seq; [reflexivity | discriminate].
Qed.

Lemma chunks_concat {A} (seq : list A) (size : nat) :
  0 < size -> concat (chunks seq size) = seq.
Proof.
  intros Hsize. apply (chunks_loop_ind size (fun seq bs => concat bs = seq)).
  - intros s E. rewrite (islice_empty size s Hsize E). reflexivity.
  - intros s _ IH. simpl. rewrite IH. apply firstn_skipn.
Qed.

Lemma chunks_bounded {A} (seq : list A) (size : nat) :
  Forall (fun b => 0 < length b <= size) (chunks seq size).
Proof.
  apply (chunks_loop_ind size (fun _ bs => Forall (fun b => 0 < length b <= size) bs)).
  - intros s _. constructor.
  - intros s Hne IH. constructor; [|exact IH]. split.
    + destruct (firstn size s); [congruence | simpl; lia].
    + apply firstn_le_length.
Qed.

Lemma chunks_length {A} (seq : list A) (size : nat) :
  0 < size -> length (chunks seq size) = (length seq + (size - 1)) / size.
Proof.
  intros Hsize.
  apply (chunks_loop_ind size
           (fun seq bs => length bs = (length seq + (size - 1)) / size)).
  - intros s E. rewrite (islice_empty size s Hsize E).
    cbn [length]. rewrite Nat.add_0_l. symmetry. apply Nat.div_small. lia.
  - intros s Hne IH. simpl. rewrite IH, length_skipn.
    destruct (Nat.le_gt_cases size (length s)) as [Hle|Hlt].
    + replace (length s + (size - 1)) with ((length s - size + (size - 1)) + 1 * size) by lia.
      rewrite Nat.div_add by lia. lia.
    + replace (length s - size) with 0 by lia. rewrite Nat.add_0_l.
      rewrite (Nat.div_small (size - 1)) by lia.
      assert (Hs : 0 < length s).
      { destruct s; [|simpl; lia]. rewrite firstn_nil in Hne. congruence. }
      replace (length s + (size - 1)) with ((length s - 1) + 1 * size) by lia.
      rewrite Nat.div_add by lia. rewrite Nat.div_small by lia. reflexivity.
Qed.

(** C3.  For every URL list [L] of length [n], [chunks L 500], the
    partition step of [request_gsb_api], yields exactly ceil(n/500)
    batches (the number [k] with [n <= 500 * k < n + 500], which is
    [(n + 499) / 500]), each of at most 500 (and at least one) urls, and
    the concatenation of the batches in order is [L]. *)
Theorem chunks_500_partition (L : list string) :
  length (chunks L 500) = (length L + 499) / 500 /\
  length L <= 500 * length (chunks L 500) < length L + 500 /\
  Forall (fun batch => 0 < length batch <= 500) (chunks L 500) /\
  concat (chunks L 500) = L.
Proof.
  assert (Hlen : length (chunks L 500) = (length L + 499) / 500).
  { rewrite chunks_length by lia. reflexivity. }
  split; [exact Hlen|]. split; [|split].
  - rewrite Hlen.
    pose proof (Nat.div_mod_eq (length L + 499) 500) as Hdm.
    pose proof (Nat.mod_upper_bound (length L + 499) 500) as Hub.
    lia.
  - apply chunks_bounded.
  - apply chunks_concat. lia.
Qed.

(** ** [request_gsb_api] *)

Lemma key_eqb_str_r (k : json) (u : string) :
  key_eqb k (JStr u) = true <-> k = JStr u.
Proof.
  destruct k as [| b | n | s | xs | items]; simpl; split; intros H;
    try discriminate; try (destruct b; discriminate).
  - apply String.eqb_eq in H. subst. reflexivity.
  - injection H as ->. apply String.eqb_refl.
Qed.

Lemma key_eqb_str_l (k : json) (u : string) :
  key_eqb (JStr u) k = true <-> k = JStr u.
Proof.
  destruct k as [| b | n | s | xs | items]; simpl; split; intros H;
    try discriminate.
  - apply String.eqb_eq in H. subst. reflexivity.
  - injection H as ->. apply String.eqb_refl.
Qed.

Lemma dd_get_append (d : defaultdict) (k m : json) (u : string) :
  dd_get (dd_append d k m) (JStr u) =
  dd_get d (JStr u) ++ (if key_eqb k (JStr u) then [m] else []).
Proof.
  induction d as [|[k' vs] rest IH]; simpl.
  - reflexivity.
  - destruct (key_eqb k' k) eqn:Ek; simpl.
    + destruct (key_eqb k' (JStr u)) eqn:Eu.
      * apply key_eqb_str_r in Eu. subst k'.
        apply key_eqb_str_l in Ek. subst k. simpl.
        rewrite String.eqb_refl. reflexivity.
      * destruct (key_eqb k (JStr u)) eqn:Eku; [|rewrite app_nil_r; reflexivity].
        apply key_eqb_str_r in Eku. subst k.
        apply key_eqb_str_r in Ek. subst k'.
        simpl in Eu. rewrite String.eqb_refl in Eu. discriminate.
    + destruct (key_eqb k' (JStr u)) eqn:Eu.
      * apply key_eqb_str_r in Eu. subst k'.
        destruct (key_eqb k (JStr u)) eqn:Eku; [|rewrite app_nil_r; reflexivity].
        apply key_eqb_str_r in Eku. subst k.
        simpl in Ek. rewrite String.eqb_refl in Ek. discriminate.
      * exact IH.
Qed.

(** The key under which lines 69-71 file a match is the url the match
    references. *)
Lemma match_key_references (m t url : json) (u : string) :
  py_get m "threat" JNull = Ok t ->
  py_get (py_or t (JObj [])) "url" JNull = Ok url ->
  key_eqb url (JStr u) = references u m.
Proof.
  destruct m as [| b | n | s | xs | items]; simpl; try discriminate.
  intros Ht Hurl. injection Ht as <-.
  destruct (dict_lookup items "threat") as [t|]; simpl in *.
  - destruct t as [| b | n | s | xs | threat]; unfold py_or in Hurl; simpl in Hurl.
    + injection Hurl as <-. reflexivity.
    + destruct b; simpl in Hurl; [discriminate|]. injection Hurl as <-. reflexivity.
    + destruct (n =? 0)%Z; simpl in Hurl; [|discriminate]. injection Hurl as <-. reflexivity.
    + destruct (String.eqb s ""); simpl in Hurl; [|discriminate]. injection Hurl as <-. reflexivity.
    + destruct xs; simpl in Hurl; [|discriminate]. injection Hurl as <-. reflexivity.
    + destruct threat as [|[k v] threat]; simpl in Hurl.
      * injection Hurl as <-. reflexivity.
      * injection Hurl as <-. simpl.
        destruct (if String.eqb k "url" then Some v else dict_lookup threat "url")
          as [x|]; [|reflexivity].
        destruct x as [| b | n | s | xs | o]; reflexivity.
  - injection Hurl as <-. reflexivity.
Qed.

Lemma collect_by_url_get (matches : list json) (d d' : defaultdict) (u : string) :
  collect_by_url matches d = Ok d' ->
  dd_get d' (JStr u) = dd_get d (JStr u) ++ filter (references u) matches.
Proof.
  revert d. induction matches as [|m rest IH]; intros d H; simpl in H.
  - injection H as <-. simpl. rewrite app_nil_r. reflexivity.
  - destruct (py_get m "threat" JNull) as [t|e] eqn:Et; simpl in H; [|discriminate].
    destruct (py_get (py_or t (JObj [])) "url" JNull) as [url|e] eqn:Eu;
      simpl in H; [|discriminate].
    destruct (hashable url); [|discriminate].
    rewrite (IH _ H), dd_get_append, (match_key_references m t url u Et Eu).
    simpl. destruct (references u m); simpl.
    + rewrite <- app_assoc. reflexivity.
    + rewrite app_nil_r. reflexivity.
Qed.

(** The loop over the matches goes through exactly on well-formed match
    objects. *)
Lemma collect_by_url_ok (matches : list json) (d : defaultdict) :
  is_ok (collect_by_url matches d) = forallb well_formed_match matches.
Proof.
  revert d. induction matches as [|m rest IH]; intros d; simpl; [reflexivity|].
  destruct m as [| b | n | s | xs | items]; simpl; try reflexivity.
  destruct (dict_lookup items "threat") as [t|]; simpl.
  - destruct t as [| b | n | s | xs | threat]; unfold py_or; simpl.
    + apply IH.
    + destruct b; simpl; [reflexivity | apply IH].
    + destruct (n =? 0)%Z; simpl; [apply IH | reflexivity].
    + destruct (String.eqb s ""); simpl; [apply IH | reflexivity].
    + destruct xs; simpl; [apply IH | reflexivity].
    + destruct threat as [|[k v] threat]; simpl; [apply IH|].
      destruct (if String.eqb k "url" then Some v else dict_lookup threat "url")
        as [url|]; simpl; [|apply IH].
      destruct (hashable url); simpl; [apply IH | reflexivity].
  - apply IH.
Qed.

Lemma first_of_filter {A} (f : A -> bool) (xs : list A) :
  match filter f xs with
  | x :: _ => find f xs = Some x
  | [] => find f xs = None
  end.
Proof.
  induction xs as [|x xs IH]; simpl; [reflexivity|].
  destruct (f x); [reflexivity | exact IH].
Qed.

Lemma label_url_expected dumps (matches : list json) (by_url : defaultdict)
    (response : json) (t u : string) :
  collect_by_url matches [] = Ok by_url ->
  matches_of response = matches ->
  label_url dumps by_url t u = expected_result dumps response t u.
Proof.
  intros Hc Hm. unfold label_url, expected_result.
  rewrite (collect_by_url_get matches [] by_url u Hc), Hm. simpl.
  pose proof (first_of_filter (references u) matches) as Hf.
  destruct (filter (references u) matches); rewrite Hf; reflexivity.
Qed.

(** Lines 62-95 on a well-formed response: one row per url of the batch,
    the one the specification expects. *)
Lemma label_batch_well_formed dumps (response : json) (t : string)
    (batch : list string) :
  well_formed_response response = true ->
  label_batch dumps response t batch =
  Ok (map (expected_result dumps response t) batch).
Proof.
  intros Hwf. unfold label_batch.
  destruct response as [| b | n | s | xs | items]; simpl in Hwf; try discriminate.
  simpl.
  assert (Hgo : forall matches,
             matches_of (JObj items) = matches ->
             forallb well_formed_match matches = true ->
             (by_url <- collect_by_url matches [] ;;
              Ok (map (label_url dumps by_url t) batch)) =
             Ok (map (expected_result dumps (JObj items) t) batch)).
  { intros matches Hm Hall.
    pose proof (collect_by_url_ok matches []) as Hok. rewrite Hall in Hok.
    destruct (collect_by_url matches []) as [by_url|e] eqn:Ec; [|discriminate].
    simpl. f_equal. apply map_ext. intros u.
    eapply label_url_expected; eauto. }
  simpl in Hgo.
  destruct (dict_lookup items "matches") as [ms|];
    [|exact (Hgo [] eq_refl eq_refl)].
  destruct ms as [| b | n | s | xs | ms]; unfold py_or; simpl in *.
  - exact (Hgo [] eq_refl eq_refl).
  - destruct b; [discriminate|]. exact (Hgo [] eq_refl eq_refl).
  - destruct (n =? 0)%Z; [|discriminate]. exact (Hgo [] eq_refl eq_refl).
  - destruct (String.eqb s ""); [|discriminate]. exact (Hgo [] eq_refl eq_refl).
  - destruct xs; [exact (Hgo [] eq_refl eq_refl) | exact (Hgo _ eq_refl Hwf)].
  - destruct ms; [|discriminate]. exact (Hgo [] eq_refl eq_refl).
Qed.

Lemma enumerate_snd {A} (xs : list A) (start : nat) :
  map snd (enumerate xs start) = xs.
Proof.
  revert start. induction xs as [|x xs IH]; intros start; simpl;
    [reflexivity | rewrite IH; reflexivity].
Qed.

Lemma expected_rows_urls (w : gsb_world) (ib : nat * list string) :
  map request_url (expected_rows w ib) = snd ib.
Proof.
  unfold expected_rows. rewrite map_map. rewrite <- (map_id (snd ib)) at 2.
  apply map_ext. intros u. unfold expected_result.
  destruct (find _ _); reflexivity.
Qed.

Lemma flat_map_expected_urls (w : gsb_world) (batches : list (nat * list string)) :
  map request_url (flat_map (expected_rows w) batches) = concat (map snd batches).
Proof.
  induction batches as [|ib rest IH]; simpl; [reflexivity|].
  rewrite map_app, IH, expected_rows_urls. reflexivity.
Qed.

(** The loop over batches that all get a well-formed reply: every batch
    is posted once, in order, and contributes its expected rows. *)
Lemma gsb_loop_well_formed (w : gsb_world) (batches : list (nat * list string))
    (sent : list (list string)) (all_rows : list ResultRow) :
  (forall i batch, In (i, batch) batches ->
                   well_formed_reply (gsb w i batch) = true) ->
  gsb_loop w batches sent all_rows =
  (sent ++ map snd batches, Ok (all_rows ++ flat_map (expected_rows w) batches)).
Proof.
  revert sent all_rows.
  induction batches as [|[i batch] rest IH]; intros sent all_rows Hwf; simpl.
  - rewrite !app_nil_r. reflexivity.
  - pose proof (Hwf i batch (or_introl eq_refl)) as Hib.
    unfold expected_rows at 1. simpl.
    destruct (gsb w i batch) as [|status [response|]]; simpl in Hib;
      try discriminate.
    rewrite (label_batch_well_formed _ _ _ _ Hib). simpl.
    rewrite IH by (intros j b Hj; apply Hwf; right; exact Hj).
    rewrite <- !app_assoc. reflexivity.
Qed.

(** The loop gets through a prefix of well-formed replies and goes on
    with what it has posted and collected. *)
Lemma gsb_loop_app (w : gsb_world) (pre rest : list (nat * list string))
    (sent : list (list string)) (all_rows : list ResultRow) :
  (forall j b, In (j, b) pre -> well_formed_reply (gsb w j b) = true) ->
  gsb_loop w (pre ++ rest) sent all_rows =
  gsb_loop w rest (sent ++ map snd pre)
    (all_rows ++ flat_map (expected_rows w) pre).
Proof.
  revert sent all_rows.
  induction pre as [|[j b] pre IH]; intros sent all_rows Hwf.
  - simpl. rewrite !app_nil_r. reflexivity.
  - pose proof (Hwf j b (or_introl eq_refl)) as Hjb.
    change ((((j, b) :: pre) ++ rest)) with ((j, b) :: (pre ++ rest)).
    cbn [gsb_loop].
    destruct (gsb w j b) as [|status [response|]] eqn:Ej; simpl in Hjb;
      try discriminate.
    rewrite (label_batch_well_formed _ _ _ _ Hjb).
    rewrite IH by (intros k c Hk; apply Hwf; right; exact Hk).
    f_equal.
    + cbn [map snd]. rewrite <- app_assoc. reflexivity.
    + cbn [flat_map]. unfold expected_rows at 2. cbn [fst snd].
      rewrite Ej. cbn [reply_body]. rewrite <- app_assoc. reflexivity.
Qed.

(** The status code of a reply does not reach the result. *)
Lemma gsb_loop_status_blind (w : gsb_world) (batches : list (nat * list string))
    (sent : list (list string)) (all_rows : list ResultRow) :
  gsb_loop (world_with_status_200 w) batches sent all_rows =
  gsb_loop w batches sent all_rows.
Proof.
  revert sent all_rows.
  induction batches as [|[i batch] rest IH]; intros sent all_rows; simpl;
    [reflexivity|].
  destruct (gsb w i batch) as [|status [response|]]; simpl; try reflexivity.
  destruct (label_batch (dumps w) response (clock w i) batch); [apply IH | reflexivity].
Qed.

Lemma expected_result_find (w : gsb_world) (ib : nat * list string) (row : ResultRow) :
  In row (expected_rows w ib) ->
  In (request_url row) (snd ib) /\
  request_time row = clock w (fst ib) /\
  match find (references (request_url row))
             (matches_of (reply_body (gsb w (fst ib) (snd ib)))) with
  | Some m => label row = 0%Z /\ match_obj row = m
  | None => label row = 1%Z /\ match_obj row = JObj []
  end.
Proof.
  unfold expected_rows. intros H. apply in_map_iff in H.
  destruct H as [u [<- Hu]]. unfold expected_result.
  destruct (find (references u) _) as [m|] eqn:Ef; simpl; rewrite Ef; auto.
Qed.

(** When every batch gets a well-formed reply, [request_gsb_api] posts
    each batch once and returns the expected rows. *)
Lemma request_gsb_api_well_formed (w : gsb_world) (url_list : list string) :
  (forall i batch, In (i, batch) (enumerate (chunks url_list 500) 1) ->
                   well_formed_reply (gsb w i batch) = true) ->
  exists rows,
    request_gsb_api w url_list =
      (chunks url_list 500,
       Ok {| result_columns := gsb_columns; result_rows := rows |}) /\
    length rows = length url_list /\
    map request_url rows = url_list /\
    rows = flat_map (expected_rows w) (enumerate (chunks url_list 500) 1) /\
    Forall
      (fun row =>
         exists i batch,
           In (i, batch) (enumerate (chunks url_list 500) 1) /\
           In (request_url row) batch /\
           request_time row = clock w i /\
           match find (references (request_url row))
                      (matches_of (reply_body (gsb w i batch))) with
           | Some m => label row = 0%Z /\ match_obj row = m
           | None => label row = 1%Z /\ match_obj row = JObj []
           end)
      rows.
Proof.
  intros Hwf.
  exists (flat_map (expected_rows w) (enumerate (chunks url_list 500) 1)).
  assert (Hurls : map request_url
                    (flat_map (expected_rows w) (enumerate (chunks url_list 500) 1))
                  = url_list).
  { rewrite flat_map_expected_urls, enumerate_snd. apply chunks_concat. lia. }
  split; [|split; [|split; [|split]]].
  - unfold request_gsb_api. rewrite (gsb_loop_well_formed w _ [] [] Hwf).
    simpl. rewrite enumerate_snd. reflexivity.
  - rewrite <- Hurls at 2. rewrite length_map. reflexivity.
  - exact Hurls.
  - reflexivity.
  - apply Forall_forall. intros row Hrow. apply in_flat_map in Hrow.
    destruct Hrow as [[i batch] [Hib Hrow]].
    exists i, batch. split; [exact Hib|].
    apply (expected_result_find w (i, batch) row Hrow).
Qed.

Lemma is_ok_bind_ok {A B} (m : result A) (f : A -> B) :
  is_ok (x <- m ;; Ok (f x)) = is_ok m.
Proof. destruct m; reflexivity. Qed.

(** Lines 62-95 raise nothing exactly on a well-formed response. *)
Lemma label_batch_ok dumps (response : json) (t : string) (batch : list string) :
  is_ok (label_batch dumps response t batch) = well_formed_response response.
Proof.
  unfold label_batch.
  destruct response as [| b | n | s | xs | items]; try reflexivity. simpl.
  assert (Hnone : is_ok (by_url <- collect_by_url [] [] ;;
                         Ok (map (label_url dumps by_url t) batch)) = true)
    by reflexivity.
  destruct (dict_lookup items "matches") as [ms|]; [|exact Hnone].
  destruct ms as [| b | n | s | xs | ms]; unfold py_or; simpl.
  - exact Hnone.
  - destruct b; [reflexivity | exact Hnone].
  - destruct (n =? 0)%Z; [exact Hnone | reflexivity].
  - destruct s as [|c s]; [exact Hnone | reflexivity].
  - destruct xs as [|x xs]; [exact Hnone|]. simpl py_iter. cbn [bind].
    rewrite is_ok_bind_ok. apply collect_by_url_ok.
  - destruct ms as [|kv ms]; [exact Hnone | reflexivity].
Qed.

(** The loop over the batches raises nothing exactly when every batch
    gets a well-formed reply. *)
Lemma gsb_loop_ok (w : gsb_world) (batches : list (nat * list string))
    (sent : list (list string)) (all_rows : list ResultRow) :
  is_ok (snd (gsb_loop w batches sent all_rows)) =
  forallb (fun ib => well_formed_reply (gsb w (fst ib) (snd ib))) batches.
Proof.
  revert sent all_rows.
  induction batches as [|[i batch] rest IH]; intros sent all_rows; simpl;
    [reflexivity|].
  destruct (gsb w i batch) as [|status [response|]]; simpl; try reflexivity.
  rewrite <- (label_batch_ok (dumps w) response (clock w i) batch).
  destruct (label_batch (dumps w) response (clock w i) batch); simpl;
    [apply IH | reflexivity].
Qed.

(** C2.  [request_gsb_api] returns a frame exactly when every batch of
    [url_list] gets a well-formed reply (any status, any number of
    matches per url; otherwise it raises and returns nothing), and the
    frame it returns has exactly one row per url occurrence, in the
    order of [url_list]: the number of rows is the number of urls, and
    the row of a url [u] of the [i]-th batch carries the request time of
    that batch and, when the reply to that batch has a match referencing
    [u], label 0 and the first such match in response-array order,
    otherwise label 1 and the empty object. *)
Theorem request_gsb_api_one_result_per_url (w : gsb_world) (url_list : list string) :
  (is_ok (snd (request_gsb_api w url_list)) = true <->
   forall i batch, In (i, batch) (enumerate (chunks url_list 500) 1) ->
                   well_formed_reply (gsb w i batch) = true) /\
  (forall df, snd (request_gsb_api w url_list) = Ok df ->
     fst (request_gsb_api w url_list) = chunks url_list 500 /\
     result_columns df = gsb_columns /\
     length (result_rows df) = length url_list /\
     map request_url (result_rows df) = url_list /\
     result_rows df = flat_map (expected_rows w) (enumerate (chunks url_list 500) 1) /\
     Forall
       (fun row =>
          exists i batch,
            In (i, batch) (enumerate (chunks url_list 500) 1) /\
            In (request_url row) batch /\
            request_time row = clock w i /\
            match find (references (request_url row))
                       (matches_of (reply_body (gsb w i batch))) with
            | Some m => label row = 0%Z /\ match_obj row = m
            | None => label row = 1%Z /\ match_obj row = JObj []
            end)
       (result_rows df)).
Proof.
  assert (Hiff : is_ok (snd (request_gsb_api w url_list)) = true <->
                 forall i batch, In (i, batch) (enumerate (chunks url_list 500) 1) ->
                                 well_formed_reply (gsb w i batch) = true).
  { unfold request_gsb_api.
    pose proof (gsb_loop_ok w (enumerate (chunks url_list 500) 1) [] []) as Hok.
    destruct (gsb_loop w (enumerate (chunks url_list 500) 1) [] []) as [sent r].
    cbn [snd] in *. rewrite is_ok_bind_ok, Hok, forallb_forall. split.
    - intros H i batch Hin. apply (H (i, batch) Hin).
    - intros H [i batch] Hin. apply (H i batch Hin). }
  split; [exact Hiff|].
  intros df Hdf.
  assert (Hwf : forall i batch, In (i, batch) (enumerate (chunks url_list 500) 1) ->
                                well_formed_reply (gsb w i batch) = true).
  { apply Hiff. rewrite Hdf. reflexivity. }
  destruct (request_gsb_api_well_formed w url_list Hwf)
    as [rows [Hcall [Hlen [Hurls [Hrows Hall]]]]].
  rewrite Hcall in Hdf |- *. cbn [fst snd] in *. injection Hdf as <-.
  cbn [result_columns result_rows].
  repeat (split; [first [reflexivity | assumption]|]). exact Hall.
Qed.

Lemma request_gsb_api_one_result_per_url_witness :
  is_ok (snd (request_gsb_api flagging_world ["x.com"; "y.com"; "x.com"])) = true /\
  exists df,
    snd (request_gsb_api flagging_world ["x.com"; "y.com"; "x.com"]) = Ok df /\
    length (result_rows df) = 3 /\
    map request_url (result_rows df) = ["x.com"; "y.com"; "x.com"] /\
    map label (result_rows df) = [0; 1; 0]%Z /\
    map match_obj (result_rows df) =
      [threat_match "x.com" "MALWARE"; JObj []; threat_match "x.com" "MALWARE"].
Proof.
  destruct (request_gsb_api_one_result_per_url flagging_world
              ["x.com"; "y.com"; "x.com"]) as [Hiff Hrows].
  split; [apply Hiff; intros i batch _; reflexivity|].
  eexists. split; [reflexivity|].
  destruct (Hrows _ eq_refl) as [_ [_ [Hlen [Hurls _]]]].
  split; [exact Hlen|]. split; [exact Hurls|]. split; reflexivity.
Defined.

(** The claim C7 fails on a reply with status 403 and a JSON error body:
    [request_gsb_api] raises nothing and labels the url as unmatched. *)
Lemma non_2xx_reply_is_labelled :
  gsb forbidden_world 1 ["x.com"] =
    Replied 403
      (Some (JObj [("error", JObj [("code", JNum 403);
                                   ("status", JStr "PERMISSION_DENIED")])])) /\
  request_gsb_api forbidden_world ["x.com"] =
    ([["x.com"]],
     Ok {| result_columns := gsb_columns;
           result_rows :=
             [{| request_url := "x.com"; match_obj := JObj [];
                 match_json_obj := "{}";
                 request_time := "01/02/25 10:00:00"; label := 1 |}] |}).
Proof. split; reflexivity. Qed.

(** C7, amended.  When the request for a batch fails in [requests.post]
    (no connection, timeout) or its reply has a body that is not JSON,
    after the batches before it got well-formed replies, the call of
    [request_gsb_api] ends with that exception and returns no row for any
    url; the failing batch was posted once and no later batch is posted
    (no retry, no fallback).  The status code of a reply is not read: the
    same replies with status 200 give the same outcome. *)
Theorem request_gsb_api_failure_propagates (w : gsb_world)
    (url_list : list string) (pre rest : list (nat * list string))
    (i : nat) (batch : list string) (e : exn) :
  enumerate (chunks url_list 500) 1 = pre ++ (i, batch) :: rest ->
  (forall j b, In (j, b) pre -> well_formed_reply (gsb w j b) = true) ->
  failure_of (gsb w i batch) = Some e ->
  request_gsb_api w url_list = (map snd pre ++ [batch], Raise e) /\
  request_gsb_api (world_with_status_200 w) url_list = request_gsb_api w url_list.
Proof.
  intros Hsplit Hpre Hfail. split.
  - unfold request_gsb_api. rewrite Hsplit, (gsb_loop_app w pre _ [] [] Hpre).
    cbn [gsb_loop app].
    destruct (gsb w i batch) as [|status [response|]]; simpl in Hfail;
      try discriminate; injection Hfail as <-; reflexivity.
  - unfold request_gsb_api. rewrite gsb_loop_status_blind. reflexivity.
Qed.

Lemma request_gsb_api_failure_propagates_witness :
  enumerate (chunks ["x.com"; "y.com"] 500) 1 = [] ++ (1, ["x.com"; "y.com"]) :: [] /\
  failure_of (gsb unreachable_world 1 ["x.com"; "y.com"]) = Some RequestException /\
  request_gsb_api unreachable_world ["x.com"; "y.com"] =
    ([["x.com"; "y.com"]], Raise RequestException).
Proof.
  split; [reflexivity|]. split; [reflexivity|].
  apply (request_gsb_api_failure_propagates unreachable_world
           ["x.com"; "y.com"] [] [] 1 ["x.com"; "y.com"] RequestException).
  - reflexivity.
  - intros j b [].
  - reflexivity.
Defined.

(** C10.  For the empty URL list [request_gsb_api] posts no request and
    returns the frame with the five fixed columns and no row; [chunks]
    of an empty sequence yields no batch, whatever the size. *)
Theorem request_gsb_api_empty (w : gsb_world) :
  request_gsb_api w [] =
    ([], Ok {| result_columns :=
                 ["request_url"; "match_obj"; "match_json_obj"; "request_time"; "label"];
               result_rows := [] |}) /\
  (forall size, chunks (@nil string) size = []).
Proof.
  split.
  - unfold request_gsb_api. rewrite chunks_nil. reflexivity.
  - intros size. apply chunks_nil.
Qed.

(** ** [get_new_entries] *)

Lemma getitem_present (df : DataFrame) (cols : list string) :
  (forall c, In c cols -> In c (columns df)) ->
  getitem df cols =
  Ok {| columns := cols; rows := map (take_columns (columns df) cols) (rows df) |}.
Proof.
  intros Hall. unfold getitem.
  replace (filter (fun c => negb (mem_label c (columns df))) cols) with (@nil string);
    [reflexivity|].
  symmetry. induction cols as [|c cols IH]; [reflexivity|]. simpl.
  assert (Hc : mem_label c (columns df) = true).
  { apply mem_label_In. apply Hall. left. reflexivity. }
  rewrite Hc. simpl. apply IH. intros d Hd. apply Hall. right. exact Hd.
Qed.

Lemma getitem_missing (df : DataFrame) (cols : list string) (c : string) :
  In c cols -> ~ In c (columns df) ->
  exists m ms,
    filter (fun c => negb (mem_label c (columns df))) cols = m :: ms /\
    getitem df cols = Raise (KeyError (m :: ms)).
Proof.
  intros Hc Hnot. unfold getitem.
  destruct (filter (fun c => negb (mem_label c (columns df))) cols) as [|m ms] eqn:E.
  - exfalso.
    assert (Hin : In c (filter (fun c => negb (mem_label c (columns df))) cols)).
    { apply filter_In. split; [exact Hc|].
      destruct (mem_label c (columns df)) eqn:Em; [|reflexivity].
      apply mem_label_In in Em. contradiction. }
    rewrite E in Hin. exact Hin.
  - exists m, ms. split; reflexivity.
Qed.

Lemma get_loc_cons_other (c d : string) (cs : list string) :
  c <> d -> get_loc (c :: cs) d = S (get_loc cs d).
Proof.
  intros Hne. simpl. destruct (String.eqb c d) eqn:E; [|reflexivity].
  apply String.eqb_eq in E. contradiction.
Qed.

(** A full row of a frame with distinct labels, taken under the frame's
    own labels, is the row. *)
Lemma take_columns_self (cols r : list string) :
  NoDup cols -> length r = length cols -> take_columns cols cols r = r.
Proof.
  unfold take_columns. revert r.
  induction cols as [|c cols IH]; intros r Hnd Hlen.
  - destruct r; [reflexivity | discriminate].
  - destruct r as [|x r]; [discriminate|].
    inversion Hnd as [|? ? Hnotin Hnd']; subst.
    cbn [map]. f_equal.
    + simpl. rewrite String.eqb_refl. reflexivity.
    + transitivity (map (fun d => nth (get_loc cols d) r "") cols).
      * apply map_ext_in. intros d Hd.
        rewrite get_loc_cons_other by (intros ->; contradiction). reflexivity.
      * apply IH; [exact Hnd' | simpl in Hlen; lia].
Qed.

Lemma getitem_self (df : DataFrame) :
  well_formed_frame df -> getitem df (columns df) = Ok df.
Proof.
  intros [Hnd Hrows]. rewrite getitem_present by auto.
  destruct df as [cols rs]. simpl in *. do 2 f_equal.
  rewrite <- (map_id rs) at 2. apply map_ext_in. intros r Hr.
  apply take_columns_self; [exact Hnd|].
  rewrite Forall_forall in Hrows. apply Hrows. exact Hr.
Qed.

(** After [drop_duplicates] a row is matched by at most one row. *)
Lemma filter_drop_duplicates_from (l : list string) (seen rs : list (list string)) :
  filter (row_eqb l) (drop_duplicates_from seen rs) =
  if mem_row l seen then []
  else if mem_row l rs then [l] else [].
Proof.
  revert seen. induction rs as [|r rs IH]; intros seen; simpl.
  - destruct (mem_row l seen); reflexivity.
  - destruct (mem_row r seen) eqn:Eseen.
    + rewrite IH. destruct (mem_row l seen) eqn:El; [reflexivity|].
      destruct (row_eqb l r) eqn:Elr; [|reflexivity].
      apply row_eqb_eq in Elr. subst. congruence.
    + simpl. rewrite IH. simpl.
      destruct (row_eqb l r) eqn:Elr.
      * apply row_eqb_eq in Elr. subst r. rewrite Eseen. reflexivity.
      * simpl. destruct (mem_row l seen); reflexivity.
Qed.

(** The [_merge] column of the anti-join: one entry per row of the left
    frame, [left_only] exactly for the rows that are not on the right. *)
Lemma merge_mask (left rs : list (list string)) :
  map (fun m => is_left_only (snd m))
      (merge_left_indicator left (drop_duplicates rs)) =
  map (fun l => negb (mem_row l rs)) left.
Proof.
  unfold merge_left_indicator, drop_duplicates.
  induction left as [|l left IH]; [reflexivity|].
  cbn [flat_map]. rewrite map_app, IH, filter_drop_duplicates_from.
  simpl. destruct (mem_row l rs); reflexivity.
Qed.

Lemma select_mask_map {A} (f : A -> bool) (rs : list A) :
  select_mask rs (map f rs) = filter f rs.
Proof.
  induction rs as [|r rs IH]; [reflexivity|]. simpl.
  rewrite IH. reflexivity.
Qed.

(** [get_new_entries] is the anti-join: the stripped rows of the current
    frame, under the labels of the previous one, that are not among the
    stripped rows of the previous frame. *)
Lemma get_new_entries_eq (prev_df act_df : DataFrame) :
  get_new_entries prev_df act_df =
  (act_aligned <- getitem act_df (columns prev_df) ;;
   prev_aligned <- getitem prev_df (columns prev_df) ;;
   Ok {| columns := columns prev_df;
         rows := filter
                   (fun r => negb (mem_row r (map (map strip) (rows prev_aligned))))
                   (map (map strip) (rows act_aligned)) |}).
Proof.
  unfold get_new_entries.
  destruct (getitem act_df (columns prev_df)) as [act_aligned|e] eqn:Ea;
    [|reflexivity].
  destruct (getitem prev_df (columns prev_df)) as [prev_aligned|e] eqn:Ep;
    [|reflexivity].
  simpl. unfold loc_mask. simpl.
  rewrite merge_mask, length_map, Nat.ltb_irrefl, select_mask_map.
  unfold getitem in Ea.
  destruct (filter _ (columns prev_df)); [|discriminate].
  injection Ea as <-. reflexivity.
Qed.

Lemma filter_none {A} (f : A -> bool) (xs : list A) :
  (forall x, In x xs -> f x = false) -> filter f xs = [].
Proof.
  induction xs as [|x xs IH]; intros H; [reflexivity|]. simpl.
  rewrite (H x (or_introl eq_refl)). apply IH. intros y Hy. apply H. right. exact Hy.
Qed.







Lemma missing_label_iff (have want : list string) (c : string) :
  In c (filter (fun c => negb (mem_label c have)) want) <->
  In c want /\ ~ In c have.
Proof.
  rewrite filter_In. split; intros [Hc Hm]; split; try exact Hc.
  - intros Hin. apply mem_label_In in Hin. rewrite Hin in Hm. discriminate.
  - destruct (mem_label c have) eqn:E; [|reflexivity].
    apply mem_label_In in E. contradiction.
Qed.


(** On the columns of the previous snapshot, [get_new_entries] raises
    the [KeyError] of the missing columns and nothing else. *)
Lemma get_new_entries_missing_column_aux (prev_df act_df : DataFrame) :
  match filter (fun c => negb (mem_label c (columns act_df))) (columns prev_df) with
  | [] =>
      exists new_entries,
        get_new_entries prev_df act_df = Ok new_entries /\
        columns new_entries = columns prev_df
  | missing => get_new_entries prev_df act_df = Raise (KeyError missing)
  end.
Proof.
  rewrite get_new_entries_eq.
  rewrite (getitem_present prev_df (columns prev_df)) by auto.
  unfold getitem.
  destruct (filter (fun c => negb (mem_label c (columns act_df))) (columns prev_df))
    as [|m ms]; simpl.
  - eexists. split; reflexivity.
  - reflexivity.
Qed.





(** ** [write_analyzed_urls_to_csv] *)

Lemma in_merge_left_on_url (res : list (string * ResultRow)) (req : list UrlRecord)
    (m : MergedRow) :
  In m (merge_left_on_url res req) <->
  exists ur, In ur res /\ merged_url m = fst ur /\ merged_res m = snd ur /\
    ((exists q, In q req /\ url q = fst ur /\
                merged_discover_time m = Some (discover_time q) /\
                merged_pulled_time m = Some (pulled_time q)) \/
     ((forall q, In q req -> url q <> fst ur) /\
      merged_discover_time m = None /\ merged_pulled_time m = None)).
Proof.
  unfold merge_left_on_url. rewrite in_flat_map. split.
  - intros [ur [Hur Hm]]. exists ur. split; [exact Hur|].
    destruct (filter (fun q => String.eqb (url q) (fst ur)) req) as [|q0 qs] eqn:E.
    + destruct Hm as [<-|[]]. simpl. repeat split. right. repeat split.
      intros q Hq Heq.
      assert (Hin : In q (filter (fun q => String.eqb (url q) (fst ur)) req)).
      { apply filter_In. split; [exact Hq | apply String.eqb_eq; exact Heq]. }
      rewrite E in Hin. exact Hin.
    + apply in_map_iff in Hm. destruct Hm as [q [<- Hq]]. simpl.
      repeat split. left. exists q. rewrite <- E in Hq.
      apply filter_In in Hq. destruct Hq as [Hq Heq].
      apply String.eqb_eq in Heq. auto.
  - intros [ur [Hur [Hu [Hr Hcase]]]]. exists ur. split; [exact Hur|].
    destruct m as [mu mr md mp].
    cbn [merged_url merged_res merged_discover_time merged_pulled_time] in *.
    subst mu mr.
    destruct Hcase as [[q [Hq [Heq [-> ->]]]] | [Hnone [-> ->]]].
    + assert (Hin : In q (filter (fun q => String.eqb (url q) (fst ur)) req)).
      { apply filter_In. split; [exact Hq | apply String.eqb_eq; exact Heq]. }
      destruct (filter (fun q => String.eqb (url q) (fst ur)) req) as [|q0 qs];
        [destruct Hin|].
      rewrite in_map_iff. exists q. split; [reflexivity | exact Hin].
    + rewrite filter_none; [left; reflexivity|].
      intros q Hq. destruct (String.eqb (url q) (fst ur)) eqn:E; [|reflexivity].
      apply String.eqb_eq in E. exfalso. exact (Hnone q Hq E).
Qed.

Lemma merge_left_on_url_length (res : list (string * ResultRow)) (req : list UrlRecord) :
  length res <= length (merge_left_on_url res req).
Proof.
  unfold merge_left_on_url. induction res as [|ur res IH]; [simpl; lia|].
  cbn [flat_map]. rewrite length_app.
  destruct (filter (fun q => String.eqb (url q) (fst ur)) req);
    rewrite ?length_map; cbn [length]; lia.
Qed.

(** The rows of [out_df]: for every row, the row of the response frame
    it comes from and, when there is one, the request record with the
    same stripped url. *)
Lemma in_out_df (csv_path : path_state) (df_request : list UrlRecord)
    (df_response : ResultFrame) (row : LedgerRow) :
  In row (snd (write_analyzed_urls_to_csv csv_path df_request df_response)) <->
  exists r, In r (result_rows df_response) /\
    out_url row = strip (request_url r) /\
    out_match_json_obj row = match_json_obj r /\
    out_request_time row = request_time r /\
    out_label row = label r /\
    ((exists q, In q df_request /\ strip (url q) = strip (request_url r) /\
                out_discover_time row = discover_time q /\
                out_pulled_time row = pulled_time q) \/
     ((forall q, In q df_request -> strip (url q) <> strip (request_url r)) /\
      out_discover_time row = "" /\ out_pulled_time row = "")).
Proof.
  unfold write_analyzed_urls_to_csv. cbn [snd]. rewrite in_map_iff. split.
  - intros [m [<- Hm]]. apply in_merge_left_on_url in Hm.
    destruct Hm as [ur [Hur [Hu [Hr Hcase]]]].
    apply in_map_iff in Hur. destruct Hur as [r [<- Hrin]]. simpl in *.
    exists r. unfold out_row. simpl. rewrite Hu, Hr.
    repeat (split; [first [exact Hrin | reflexivity]|]).
    destruct Hcase as [[q [Hq [Heq [-> ->]]]] | [Hnone [-> ->]]].
    + apply in_map_iff in Hq. destruct Hq as [q0 [<- Hq0]]. simpl in *.
      left. exists q0. auto.
    + right. repeat split. intros q Hq Heq.
      apply (Hnone {| url := strip (url q); discover_time := discover_time q;
                      pulled_time := pulled_time q |}); [|exact Heq].
      rewrite in_map_iff. exists q. auto.
  - intros [r [Hrin [Hu [Hj [Ht [Hl Hcase]]]]]].
    destruct row as [ou oj od op ot ol]. simpl in *. subst ou oj ot ol.
    destruct Hcase as [[q [Hq [Heq [-> ->]]]] | [Hnone [-> ->]]].
    + exists {| merged_url := strip (request_url r); merged_res := r;
                merged_discover_time := Some (discover_time q);
                merged_pulled_time := Some (pulled_time q) |}.
      split; [reflexivity|]. apply in_merge_left_on_url.
      exists (strip (request_url r), r). simpl.
      split; [rewrite in_map_iff; exists r; auto|]. repeat split.
      left.
      exists {| url := strip (url q); discover_time := discover_time q;
                pulled_time := pulled_time q |}.
      simpl. repeat split; [|exact Heq].
      rewrite in_map_iff. exists q. auto.
    + exists {| merged_url := strip (request_url r); merged_res := r;
                merged_discover_time := None; merged_pulled_time := None |}.
      split; [reflexivity|]. apply in_merge_left_on_url.
      exists (strip (request_url r), r). simpl.
      split; [rewrite in_map_iff; exists r; auto|]. repeat split.
      right. repeat split. intros q Hq Heq.
      apply in_map_iff in Hq. destruct Hq as [q0 [<- Hq0]]. simpl in Heq.
      exact (Hnone q0 Hq0 Heq).
Qed.

(** The claim C4 fails for a record without match result: the correlator
    writes the header and no row for it; the endpoint itself produces
    such an input, a record with an empty url is part of the request
    frame and is not sent to the service. *)
Lemma url_record_without_result_is_dropped :
  write_analyzed_urls_to_csv None [record_a] no_results = (Some [out_cols], []) /\
  ingest_urls flagging_world None [record_without_url] =
    (Some [out_cols], [], Ok []).
Proof. split; reflexivity. Qed.

(** C4, amended.  The correlator is a left join from the match results:
    every MatchResult yields at least one ledger row, one with
    [discover_time] and [pulled_time] empty when no UrlRecord has its
    stripped url; a UrlRecord appears in the ledger exactly when some
    MatchResult has its stripped url, and every ledger row comes from a
    MatchResult. *)
Theorem write_analyzed_urls_left_join (csv_path : path_state)
    (df_request : list UrlRecord) (df_response : ResultFrame) :
  let out_df := snd (write_analyzed_urls_to_csv csv_path df_request df_response) in
  (forall r, In r (result_rows df_response) ->
     exists row, In row out_df /\
       out_url row = strip (request_url r) /\
       out_match_json_obj row = match_json_obj r /\
       out_request_time row = request_time r /\
       out_label row = label r) /\
  (forall r, In r (result_rows df_response) ->
     (forall q, In q df_request -> strip (url q) <> strip (request_url r)) ->
     In {| out_url := strip (request_url r);
           out_match_json_obj := match_json_obj r;
           out_discover_time := "";
           out_pulled_time := "";
           out_request_time := request_time r;
           out_label := label r |} out_df) /\
  (forall q, In q df_request ->
     ((exists row, In row out_df /\
         out_url row = strip (url q) /\
         out_discover_time row = discover_time q /\
         out_pulled_time row = pulled_time q) <->
      (exists r, In r (result_rows df_response) /\
         strip (request_url r) = strip (url q)))) /\
  (forall row, In row out_df ->
     exists r, In r (result_rows df_response) /\
       out_url row = strip (request_url r)) /\
  length (result_rows df_response) <= length out_df.
Proof.
  intros out_df. subst out_df.
  assert (Hunmatched :
            forall r, In r (result_rows df_response) ->
              (forall q, In q df_request -> strip (url q) <> strip (request_url r)) ->
              In {| out_url := strip (request_url r);
                    out_match_json_obj := match_json_obj r;
                    out_discover_time := "";
                    out_pulled_time := "";
                    out_request_time := request_time r;
                    out_label := label r |}
                 (snd (write_analyzed_urls_to_csv csv_path df_request df_response))).
  { intros r Hr Hnone. apply in_out_df. exists r. simpl. repeat split; auto. }
  assert (Hmatched :
            forall r q, In r (result_rows df_response) -> In q df_request ->
              strip (url q) = strip (request_url r) ->
              In {| out_url := strip (request_url r);
                    out_match_json_obj := match_json_obj r;
                    out_discover_time := discover_time q;
                    out_pulled_time := pulled_time q;
                    out_request_time := request_time r;
                    out_label := label r |}
                 (snd (write_analyzed_urls_to_csv csv_path df_request df_response))).
  { intros r q Hr Hq Heq. apply in_out_df. exists r. simpl.
    repeat (split; [first [exact Hr | reflexivity]|]).
    left. exists q. auto. }
  split; [|split; [exact Hunmatched|split; [|split]]].
  - intros r Hr.
    destruct (existsb (fun q => String.eqb (strip (url q)) (strip (request_url r)))
                      df_request) eqn:E.
    + apply existsb_exists in E. destruct E as [q [Hq Heq]].
      apply String.eqb_eq in Heq.
      eexists. split; [exact (Hmatched r q Hr Hq Heq)|]. simpl. auto.
    + eexists. split; [apply (Hunmatched r Hr)|simpl; auto].
      intros q Hq Heq.
      assert (Ex : existsb (fun q => String.eqb (strip (url q)) (strip (request_url r)))
                           df_request = true).
      { apply existsb_exists. exists q. split; [exact Hq|].
        apply String.eqb_eq. exact Heq. }
      rewrite E in Ex. discriminate.
  - intros q Hq. split.
    + intros [row [Hrow [Hu _]]]. apply in_out_df in Hrow.
      destruct Hrow as [r [Hr [Hur _]]]. exists r. split; [exact Hr|]. congruence.
    + intros [r [Hr Heq]]. eexists.
      split; [exact (Hmatched r q Hr Hq (eq_sym Heq))|]. simpl. auto.
  - intros row Hrow. apply in_out_df in Hrow.
    destruct Hrow as [r [Hr [Hur _]]]. exists r. auto.
  - unfold write_analyzed_urls_to_csv. cbn [snd]. rewrite length_map.
    etransitivity; [|apply merge_left_on_url_length]. rewrite length_map. lia.
Qed.

Lemma write_analyzed_urls_left_join_witness :
  In {| out_url := "orphan.com"; out_match_json_obj := "{}";
        out_discover_time := ""; out_pulled_time := "";
        out_request_time := "01/02/25 09:06:00"; out_label := 1 |}
     (snd (write_analyzed_urls_to_csv None [record_a] results_a_orphan)) /\
  snd (write_analyzed_urls_to_csv None [record_a] results_a_orphan) =
    [{| out_url := "a.com"; out_match_json_obj := "{}";
        out_discover_time := "01/02/25 09:00:00";
        out_pulled_time := "01/02/25 09:05:00";
        out_request_time := "01/02/25 09:06:00"; out_label := 1 |};
     {| out_url := "orphan.com"; out_match_json_obj := "{}";
        out_discover_time := ""; out_pulled_time := "";
        out_request_time := "01/02/25 09:06:00"; out_label := 1 |}].
Proof.
  split; [|reflexivity].
  apply (proj1 (proj2 (write_analyzed_urls_left_join None [record_a]
                         results_a_orphan))
           (unmatched "orphan.com")).
  - right. left. reflexivity.
  - intros q [<-|[]]. vm_compute. discriminate.
Defined.

(** ** The header of the CSV files *)

Lemma write_header_for_iff (p : path_state) :
  write_header_for p = true <-> (p = None \/ p = Some []).
Proof.
  destruct p as [[|l f]|]; simpl; split; intros H; auto; try discriminate.
  - destruct H as [H|H]; discriminate.
Qed.

(** After an append that decided on the header by [write_header_for],
    the file is not empty: the next append writes no header. *)
Lemma header_written_once (p : path_state) (cols : list string)
    (records : list (list string)) :
  write_header_for (to_csv_append p (write_header_for p) cols records) = false.
Proof. destruct p as [[|l f]|]; reflexivity. Qed.

Lemma to_csv_append_contents (p : path_state) (header : bool) (cols : list string)
    (records : list (list string)) :
  to_csv_append p header cols records =
  Some (contents p ++ (if header then [cols] else []) ++ records).
Proof. destruct p; reflexivity. Qed.

Lemma write_analyzed_urls_file (p : path_state) (df_request : list UrlRecord)
    (df_response : ResultFrame) :
  fst (write_analyzed_urls_to_csv p df_request df_response) =
  to_csv_append p (write_header_for p) out_cols
    (ledger_lines (df_request, df_response)).
Proof. reflexivity. Qed.

Lemma ledger_appends_from (calls : list (list UrlRecord * ResultFrame))
    (p : path_state) (c : list UrlRecord * ResultFrame) :
  ledger_appends p (c :: calls) =
  Some (contents p ++ (if write_header_for p then [out_cols] else [])
          ++ flat_map ledger_lines (c :: calls)).
Proof.
  unfold ledger_appends. revert p c.
  induction calls as [|c' calls IH]; intros p [req res].
  - cbn [fold_left flat_map fst snd]. rewrite app_nil_r.
    rewrite write_analyzed_urls_file. apply to_csv_append_contents.
  - change (fold_left _ ((req, res) :: c' :: calls) p)
      with (fold_left
              (fun p c => fst (write_analyzed_urls_to_csv p (fst c) (snd c)))
              (c' :: calls)
              (fst (write_analyzed_urls_to_csv p req res))).
    rewrite IH, write_analyzed_urls_file, header_written_once.
    rewrite to_csv_append_contents. cbn [contents flat_map app].
    rewrite <- !app_assoc. reflexivity.
Qed.

Lemma write_new_entries_file (p : path_state) (new_entries : DataFrame) :
  write_new_entries p new_entries =
  to_csv_append p (write_header_for p) (header_for p new_entries)
    (rows (reindex new_entries (header_for p new_entries))).
Proof. destruct p as [[|l f]|]; reflexivity. Qed.

Lemma header_for_after_write (p : path_state) (new_entries df : DataFrame) :
  header_for (write_new_entries p new_entries) df = header_for p new_entries.
Proof. destruct p as [[|l f]|]; reflexivity. Qed.

Lemma header_line_when_written (p : path_state) (df : DataFrame) :
  (if write_header_for p then [header_for p df] else []) =
  (if write_header_for p then [columns df] else []).
Proof. destruct p as [[|l f]|]; reflexivity. Qed.

Lemma feed_appends_from (frames : list DataFrame) (p : path_state)
    (new_entries : DataFrame) :
  feed_appends p (new_entries :: frames) =
  Some (contents p ++ (if write_header_for p then [columns new_entries] else [])
          ++ flat_map (fun df => rows (reindex df (header_for p new_entries)))
                      (new_entries :: frames)).
Proof.
  unfold feed_appends. revert p new_entries.
  induction frames as [|df frames IH]; intros p new_entries.
  - cbn [fold_left flat_map]. rewrite app_nil_r, write_new_entries_file.
    rewrite to_csv_append_contents, header_line_when_written. reflexivity.
  - change (fold_left write_new_entries (new_entries :: df :: frames) p)
      with (fold_left write_new_entries (df :: frames)
              (write_new_entries p new_entries)).
    rewrite IH, header_for_after_write.
    rewrite write_new_entries_file at 2. rewrite header_written_once.
    rewrite write_new_entries_file, to_csv_append_contents, header_line_when_written.
    cbn [contents flat_map app]. rewrite <- !app_assoc. reflexivity.
Qed.

(** C5.  Both writers decide on the header by [write_header_for], which
    holds exactly when the file does not exist or is empty.  Over any
    sequence of appends (the file is the only state, so restarts of the
    process in between change nothing) the file is its old contents,
    then the header if and only if the file did not exist or was empty
    at the first append, then the data lines of all appends in order: an
    append to a non-empty file writes data lines only, and the header
    is written once at most. *)
Theorem header_written_exactly_once :
  (forall p, write_header_for p = true <-> (p = None \/ p = Some [])) /\
  (forall p c calls,
      ledger_appends p (c :: calls) =
      Some (contents p ++ (if write_header_for p then [out_cols] else [])
              ++ flat_map ledger_lines (c :: calls))) /\
  (forall c calls,
      ledger_appends None (c :: calls) =
        Some (out_cols :: flat_map ledger_lines (c :: calls)) /\
      ledger_appends (Some []) (c :: calls) =
        Some (out_cols :: flat_map ledger_lines (c :: calls))) /\
  (forall l f c calls,
      ledger_appends (Some (l :: f)) (c :: calls) =
        Some ((l :: f) ++ flat_map ledger_lines (c :: calls))) /\
  (forall p new_entries frames,
      feed_appends p (new_entries :: frames) =
      Some (contents p
              ++ (if write_header_for p then [columns new_entries] else [])
              ++ flat_map (fun df => rows (reindex df (header_for p new_entries)))
                          (new_entries :: frames))) /\
  (forall l f new_entries frames,
      feed_appends (Some (l :: f)) (new_entries :: frames) =
        Some ((l :: f) ++ flat_map (fun df => rows (reindex df l))
                                   (new_entries :: frames))).
Proof.
  split; [exact write_header_for_iff|].
  split; [intros p c calls; apply ledger_appends_from|].
  split; [intros c calls; split; apply ledger_appends_from|].
  split; [intros l f c calls; apply ledger_appends_from|].
  split; [intros p ne frames; apply feed_appends_from|].
  intros l f ne frames. apply feed_appends_from.
Qed.

Lemma header_written_exactly_once_witness :
  ledger_appends None
    [([record_a], results_a_orphan); ([record_a], results_a_orphan)] =
  Some [["url"; "match_json_obj"; "discover_time"; "pulled_time";
         "request_time"; "label"];
        ["a.com"; "{}"; "01/02/25 09:00:00"; "01/02/25 09:05:00";
         "01/02/25 09:06:00"; "1"];
        ["orphan.com"; "{}"; ""; ""; "01/02/25 09:06:00"; "1"];
        ["a.com"; "{}"; "01/02/25 09:00:00"; "01/02/25 09:05:00";
         "01/02/25 09:06:00"; "1"];
        ["orphan.com"; "{}"; ""; ""; "01/02/25 09:06:00"; "1"]].
Proof.
  exact (proj1 (proj1 (proj2 (proj2 header_written_exactly_once))
                  ([record_a], results_a_orphan)
                  [([record_a], results_a_orphan)])).
Defined.

(** ** The watcher loop *)

(** The claim C8 fails when [git pull] exits with status 1: the iteration
    ends with the uncaught [RuntimeError] of [run], nothing but the pull
    line is printed, there is no sleep, and the loop is over. *)
Lemma failed_pull_crashes :
  cycle no_conversion failed_pull fresh_watcher =
    Crashed RuntimeError
      {| prev_df := empty_snapshot; evaluation_feed := None;
         console := [PullRepository "01/02/25 09:05:00"]; posted := [] |} /\
  watch no_conversion [failed_pull; quiet_cycle "01/02/25 09:10:00" snapshot_ab]
        fresh_watcher =
    Crashed RuntimeError
      {| prev_df := empty_snapshot; evaluation_feed := None;
         console := [PullRepository "01/02/25 09:05:00"]; posted := [] |}.
Proof. split; reflexivity. Qed.

(** C8, amended.  In an iteration in which the refresh fails ([git pull]
    exits with a non-zero status) [run] raises [RuntimeError], which the
    loop does not catch: no diff is attempted, nothing is written or
    posted, the previous snapshot is unchanged, there is no sleep, and
    the watcher ends with that error, whatever iterations would follow.
    In an iteration in which the pull works and [feed.csv] does not
    exist, the watcher prints the error, keeps the previous snapshot,
    attempts no diff and goes on with the next iteration. *)
Theorem cycle_without_snapshot (utc_to_berlin : string -> result string)
    (cw : cycle_world) (w : watcher) :
  let pulled := print w (PullRepository (pull_time cw)) in
  (pull_returncode cw <> 0%Z ->
   cycle utc_to_berlin cw w = Crashed RuntimeError pulled /\
   forall rest, watch utc_to_berlin (cw :: rest) w = Crashed RuntimeError pulled) /\
  (pull_returncode cw = 0%Z -> feed_csv cw = None ->
   cycle utc_to_berlin cw w = Running (print pulled FeedFileNotFound)) /\
  prev_df pulled = prev_df w /\
  evaluation_feed pulled = evaluation_feed w /\
  posted pulled = posted w.
Proof.
  intros pulled. split; [|split; [|repeat split]].
  - intros Hfail.
    assert (Hc : cycle utc_to_berlin cw w = Crashed RuntimeError pulled).
    { unfold cycle, git_pull, run.
      destruct (pull_returncode cw =? 0)%Z eqn:E; [|reflexivity].
      apply Z.eqb_eq in E. contradiction. }
    split; [exact Hc|]. intros rest. cbn [watch]. rewrite Hc. reflexivity.
  - intros Hpull Hfeed. unfold cycle, git_pull, run.
    rewrite Hpull, Hfeed. reflexivity.
Qed.

Lemma cycle_without_snapshot_witness :
  pull_returncode failed_pull <> 0%Z /\
  cycle no_conversion failed_pull fresh_watcher =
    Crashed RuntimeError
      (print fresh_watcher (PullRepository (pull_time failed_pull))) /\
  pull_returncode feed_file_gone = 0%Z /\
  feed_csv feed_file_gone = None /\
  cycle no_conversion feed_file_gone fresh_watcher =
    Running (print (print fresh_watcher (PullRepository (pull_time feed_file_gone)))
                   FeedFileNotFound).
Proof.
  assert (Hne : pull_returncode failed_pull <> 0%Z) by (simpl; lia).
  split; [exact Hne|].
  split.
  - exact (proj1 (proj1 (cycle_without_snapshot no_conversion failed_pull
                           fresh_watcher) Hne)).
  - split; [reflexivity|]. split; [reflexivity|].
    exact (proj1 (proj2 (cycle_without_snapshot no_conversion feed_file_gone
                           fresh_watcher)) eq_refl eq_refl).
Defined.








(* ================================================================== *)
(** * Part III: further properties of the code *)
(* ================================================================== *)

(** ** [chunks] for any size *)

Lemma chunks_not_nil {A} (seq : list A) (size : nat) :
  chunks seq size <> [] -> seq <> [].
Proof. intros H ->. apply H. apply chunks_nil. Qed.

Lemma firstn_full {A} (size : nat) (seq : list A) :
  skipn size seq <> [] -> length (firstn size seq) = size.
Proof.
  intros H. apply firstn_length_le.
  destruct (Nat.le_gt_cases size (length seq)) as [Hle|Hlt]; [exact Hle|].
  exfalso. apply H. apply skipn_all2. lia.
Qed.

Lemma chunks_full_but_last {A} (seq : list A) (size : nat) :
  forall pre last, chunks seq size = pre ++ [last] ->
                   Forall (fun b => length b = size) pre.
Proof.
  apply (chunks_loop_ind size
           (fun _ bs => forall pre last, bs = pre ++ [last] ->
                                         Forall (fun b => length b = size) pre)).
  - intros s _ pre last H. destruct pre; discriminate.
  - intros s _ IH pre last H. destruct pre as [|b pre]; [constructor|].
    simpl in H. injection H as <- Hrest. constructor.
    + apply firstn_full. apply (chunks_not_nil _ size). rewrite Hrest.
      destruct pre; discriminate.
    + apply (IH pre last Hrest).
Qed.

(** X1.  [chunks seq size] for any [size]: with size 0 the first
    [islice] is empty and no batch is yielded, whatever [seq] holds;
    with a positive size the batches concatenate to [seq], there are
    ceil(len/size) of them, and every batch but the last has exactly
    [size] elements (the last has between 1 and [size]). *)
Theorem chunks_any_size {A} (seq : list A) (size : nat) :
  chunks seq 0 = [] /\
  (0 < size ->
   concat (chunks seq size) = seq /\
   length (chunks seq size) = (length seq + (size - 1)) / size /\
   forall pre last, chunks seq size = pre ++ [last] ->
     Forall (fun b => length b = size) pre /\ 0 < length last <= size).
Proof.
  split; [rewrite chunks_step; reflexivity|].
  intros Hsize. split; [apply chunks_concat; exact Hsize|].
  split; [apply chunks_length; exact Hsize|].
  intros pre last H. split; [apply (chunks_full_but_last seq size pre last H)|].
  pose proof (chunks_bounded seq size) as Hb. rewrite H in Hb.
  apply Forall_app in Hb. destruct Hb as [_ Hlast].
  inversion Hlast; subst. assumption.
Qed.

Lemma chunks_any_size_witness :
  chunks [1; 2; 3; 4; 5] 0 = [] /\
  chunks [1; 2; 3; 4; 5] 2 = [[1; 2]; [3; 4]] ++ [[5]] /\
  Forall (fun b => length b = 2) [[1; 2]; [3; 4]] /\ 0 < length [5] <= 2.
Proof.
  destruct (chunks_any_size [1; 2; 3; 4; 5] 2) as [H0 Hpos].
  split; [exact (proj1 (chunks_any_size [1; 2; 3; 4; 5] 0))|].
  split; [reflexivity|].
  destruct (Hpos ltac:(lia)) as [_ [_ Hfull]].
  exact (Hfull [[1; 2]; [3; 4]] [5] eq_refl).
Defined.

(** ** What [request_gsb_api] posts *)

Lemma gsb_loop_sent (w : gsb_world) (batches : list (nat * list string))
    (sent : list (list string)) (all_rows : list ResultRow) :
  exists k,
    k <= length batches /\
    fst (gsb_loop w batches sent all_rows) = sent ++ map snd (firstn k batches) /\
    (is_ok (snd (gsb_loop w batches sent all_rows)) = true -> k = length batches) /\
    (is_ok (snd (gsb_loop w batches sent all_rows)) = false -> 0 < k).
Proof.
  revert sent all_rows.
  induction batches as [|[i batch] rest IH]; intros sent all_rows.
  - exists 0. simpl. rewrite app_nil_r. repeat split; auto. discriminate.
  - assert (Hstop : forall e,
               exists k, k <= length ((i, batch) :: rest) /\
                 fst (sent ++ [batch], @Raise (list ResultRow) e) =
                   sent ++ map snd (firstn k ((i, batch) :: rest)) /\
                 (is_ok (snd (sent ++ [batch], @Raise (list ResultRow) e)) = true ->
                  k = length ((i, batch) :: rest)) /\
                 (is_ok (snd (sent ++ [batch], @Raise (list ResultRow) e)) = false ->
                  0 < k)).
    { intros e. exists 1. simpl. repeat split; try lia. }
    cbn [gsb_loop].
    destruct (gsb w i batch) as [|status [response|]]; try apply Hstop.
    destruct (label_batch (dumps w) response (clock w i) batch) as [rows|e];
      [|apply Hstop].
    destruct (IH (sent ++ [batch]) (all_rows ++ rows)) as [k [Hk [Hsent [Hok Hfail]]]].
    exists (S k). cbn [length firstn map snd]. rewrite Hsent, <- app_assoc.
    repeat split; try lia; auto.
Qed.

(** X2.  Whatever the service answers, the batches [request_gsb_api]
    posts are an initial segment of [chunks url_list 500], in order and
    each once: all of them when it returns a frame, and at least the
    failing one when it raises.  It never posts a batch twice or skips
    one. *)
Theorem request_gsb_api_posts_prefix (w : gsb_world) (url_list : list string) :
  exists not_posted,
    chunks url_list 500 = fst (request_gsb_api w url_list) ++ not_posted /\
    (is_ok (snd (request_gsb_api w url_list)) = true -> not_posted = []) /\
    (is_ok (snd (request_gsb_api w url_list)) = false ->
     fst (request_gsb_api w url_list) <> []).
Proof.
  unfold request_gsb_api.
  destruct (gsb_loop_sent w (enumerate (chunks url_list 500) 1) [] [])
    as [k [Hk [Hsent [Hok Hfail]]]].
  destruct (gsb_loop w (enumerate (chunks url_list 500) 1) [] []) as [sent r].
  cbn [fst snd] in *. rewrite is_ok_bind_ok.
  exists (skipn k (chunks url_list 500)).
  assert (Hpre : sent = firstn k (chunks url_list 500)).
  { rewrite Hsent. cbn [app]. rewrite <- firstn_map, enumerate_snd. reflexivity. }
  split; [rewrite Hpre; symmetry; apply firstn_skipn|]. split.
  - intros H. rewrite (Hok H). apply skipn_all2.
    rewrite <- (enumerate_snd (chunks url_list 500) 1) at 1.
    rewrite length_map. lia.
  - intros H Hnil. specialize (Hfail H).
    rewrite Hpre in Hnil.
    assert (Hlen : length (firstn k (chunks url_list 500)) = 0)
      by (rewrite Hnil; reflexivity).
    rewrite length_firstn in Hlen.
    rewrite <- (length_map snd), enumerate_snd in Hk. lia.
Qed.

(** ** [str.strip] *)

Lemma rstrip_idempotent (s : string) : rstrip (rstrip s) = rstrip s.
Proof.
  induction s as [|c s IH]; [reflexivity|]. simpl.
  destruct (rstrip s) as [|d t] eqn:E.
  - destruct (isspace c) eqn:Ec; [reflexivity|]. simpl. rewrite Ec. reflexivity.
  - change (rstrip (String c (String d t))) with
      (match rstrip (String d t) with
       | EmptyString => if isspace c then EmptyString else String c EmptyString
       | u => String c u
       end).
    rewrite IH. reflexivity.
Qed.

Lemma lstrip_rstrip_lstrip (s : string) :
  lstrip (rstrip (lstrip s)) = rstrip (lstrip s).
Proof.
  induction s as [|c s IH]; [reflexivity|]. simpl.
  destruct (isspace c) eqn:Ec; [exact IH|]. simpl.
  destruct (rstrip s); simpl; rewrite ?Ec; simpl; rewrite ?Ec; reflexivity.
Qed.

Lemma strip_idempotent (s : string) : strip (strip s) = strip s.
Proof.
  unfold strip. rewrite lstrip_rstrip_lstrip. apply rstrip_idempotent.
Qed.

(** ** More on [get_new_entries] *)

Lemma take_columns_length (have want r : list string) :
  length (take_columns have want r) = length want.
Proof. unfold take_columns. apply length_map. Qed.

(** The frame [get_new_entries] returns: the columns of the previous
    frame, full rows, stripped cells, no row of the previous frame. *)
Lemma new_entries_shape (prev_df act_df new_entries : DataFrame) :
  well_formed_frame prev_df ->
  get_new_entries prev_df act_df = Ok new_entries ->
  columns new_entries = columns prev_df /\
  well_formed_frame new_entries /\
  Forall (Forall (fun s => strip s = s)) (rows new_entries) /\
  (forall r, In r (rows new_entries) ->
             mem_row r (map (map strip) (rows prev_df)) = false).
Proof.
  intros Hwf Hget.
  rewrite get_new_entries_eq, (getitem_self prev_df Hwf) in Hget.
  unfold getitem in Hget.
  destruct (filter _ (columns prev_df)); [|discriminate].
  simpl in Hget. injection Hget as <-. simpl.
  split; [reflexivity|]. split; [|split].
  - split; [exact (proj1 Hwf)|]. simpl. apply Forall_forall. intros r Hr.
    apply filter_In in Hr. destruct Hr as [Hr _].
    apply in_map_iff in Hr. destruct Hr as [b [<- Hb]].
    apply in_map_iff in Hb. destruct Hb as [a [<- _]].
    rewrite length_map. apply take_columns_length.
  - apply Forall_forall. intros r Hr.
    apply filter_In in Hr. destruct Hr as [Hr _].
    apply in_map_iff in Hr. destruct Hr as [b [<- Hb]].
    apply Forall_forall. intros s Hs.
    apply in_map_iff in Hs. destruct Hs as [x [<- _]]. apply strip_idempotent.
  - intros r Hr. apply filter_In in Hr. destruct Hr as [_ Hr].
    destruct (mem_row r (map (map strip) (rows prev_df))); [discriminate|reflexivity].
Qed.

Lemma mem_row_same (r : list string) (xs ys : list (list string)) :
  (forall x, In x xs <-> In x ys) -> mem_row r xs = mem_row r ys.
Proof.
  intros H. destruct (mem_row r xs) eqn:Ex; destruct (mem_row r ys) eqn:Ey;
    try reflexivity.
  - apply mem_row_In in Ex. apply H in Ex. apply mem_row_In in Ex. congruence.
  - apply mem_row_In in Ey. apply H in Ey. apply mem_row_In in Ey. congruence.
Qed.

(** X4.  Only the set of rows of the previous snapshot matters: two
    previous snapshots with the same columns and the same rows, in any
    order and with any repetitions, give the same result against every
    current snapshot. *)
Theorem get_new_entries_previous_as_set (prev_df prev_df' act_df : DataFrame) :
  columns prev_df = columns prev_df' ->
  (forall r, In r (rows prev_df) <-> In r (rows prev_df')) ->
  get_new_entries prev_df act_df = get_new_entries prev_df' act_df.
Proof.
  intros Hcols Hrows. rewrite !get_new_entries_eq, <- Hcols.
  destruct (getitem act_df (columns prev_df)) as [act_aligned|e]; [|reflexivity].
  rewrite (getitem_present prev_df (columns prev_df)) by auto.
  rewrite (getitem_present prev_df' (columns prev_df))
    by (intros c Hc; rewrite <- Hcols; exact Hc).
  simpl. rewrite <- Hcols. do 2 f_equal. apply filter_ext. intros r. f_equal.
  apply mem_row_same. intros x. rewrite !in_map_iff. split.
  - intros [y [<- Hy]]. exists y. split; [reflexivity|].
    apply in_map_iff in Hy. destruct Hy as [z [<- Hz]].
    apply in_map. apply Hrows. exact Hz.
  - intros [y [<- Hy]]. exists y. split; [reflexivity|].
    apply in_map_iff in Hy. destruct Hy as [z [<- Hz]].
    apply in_map. apply Hrows. exact Hz.
Qed.

Lemma get_new_entries_previous_as_set_witness :
  (forall r, In r (rows snapshot_ab) <->
             In r [["b.com"; "t2"]; ["a.com"; "t1"]; ["b.com"; "t2"]]) /\
  get_new_entries snapshot_ab snapshot_extra_column =
  get_new_entries
    {| columns := ["url"; "discover_time"];
       rows := [["b.com"; "t2"]; ["a.com"; "t1"]; ["b.com"; "t2"]] |}
    snapshot_extra_column.
Proof.
  assert (H : forall r, In r (rows snapshot_ab) <->
                        In r [["b.com"; "t2"]; ["a.com"; "t1"]; ["b.com"; "t2"]]).
  { intros r. simpl. tauto. }
  split; [exact H|].
  exact (get_new_entries_previous_as_set snapshot_ab
           {| columns := ["url"; "discover_time"];
              rows := [["b.com"; "t2"]; ["a.com"; "t1"]; ["b.com"; "t2"]] |}
           snapshot_extra_column eq_refl H).
Defined.



(** ** What the watcher writes *)

Lemma reindex_self (df : DataFrame) :
  well_formed_frame df -> rows (reindex df (columns df)) = rows df.
Proof.
  intros [Hnd Hrows]. unfold reindex. simpl.
  rewrite <- (map_id (rows df)) at 2. apply map_ext_in. intros r Hr.
  rewrite Forall_forall in Hrows.
  transitivity (take_columns (columns df) (columns df) r);
    [|apply (take_columns_self (columns df) r Hnd (Hrows r Hr))].
  unfold take_columns. apply map_ext_in. intros c Hc.
  apply mem_label_In in Hc. rewrite Hc. reflexivity.
Qed.



(** With the columns of the frame as header, the rows are appended as
    they are. *)
Lemma write_new_entries_verbatim (p : path_state) (new_entries : DataFrame) :
  well_formed_frame new_entries ->
  header_for p new_entries = columns new_entries ->
  write_new_entries p new_entries =
  Some (contents p
          ++ (if write_header_for p then [columns new_entries] else [])
          ++ rows new_entries).
Proof.
  intros Hwf Hheader.
  rewrite write_new_entries_file, to_csv_append_contents, Hheader.
  rewrite (reindex_self new_entries Hwf). reflexivity.
Qed.

Lemma sleep_frame (cw : cycle_world) (w : watcher) :
  prev_df (state_of (sleep cw w)) = prev_df w /\
  evaluation_feed (state_of (sleep cw w)) = evaluation_feed w /\
  posted (state_of (sleep cw w)) = posted w /\
  exists printed, console (state_of (sleep cw w)) = console w ++ printed.
Proof.
  unfold sleep. destruct (keyboard_interrupt cw); simpl; repeat split.
  - exists [Sleeping; StoppedByUser]. rewrite <- app_assoc. reflexivity.
  - exists [Sleeping]. reflexivity.
Qed.

Lemma send_new_entries_frame (utc_to_berlin : string -> result string)
    (cw : cycle_world) (w : watcher) (new_entries : DataFrame) :
  prev_df (state_of (send_new_entries utc_to_berlin cw w new_entries)) = prev_df w /\
  evaluation_feed (state_of (send_new_entries utc_to_berlin cw w new_entries)) =
    evaluation_feed w /\
  (exists payloads,
      posted (state_of (send_new_entries utc_to_berlin cw w new_entries)) =
      posted w ++ payloads) /\
  (exists printed,
      console (state_of (send_new_entries utc_to_berlin cw w new_entries)) =
      console w ++ printed).
Proof.
  unfold send_new_entries.
  destruct (filter _ _).
  - destruct (map_result _ _) as [payload|e].
    + destruct (blacklist_server cw) as [|status_code];
        [|destruct (status_code =? 200)%Z]; simpl; repeat split;
        try (exists [payload]; reflexivity).
      * eexists. rewrite <- app_assoc. reflexivity.
      * eexists. reflexivity.
      * eexists. rewrite <- app_assoc. reflexivity.
    + simpl. repeat split; [exists [] | exists []]; rewrite app_nil_r; reflexivity.
  - simpl. repeat split; [exists []; rewrite app_nil_r; reflexivity|].
    eexists. reflexivity.
Qed.


(** X6.  An iteration that finds new entries appends exactly these, as
    [get_new_entries] returned them and in that order, to
    [evaluation-feed.csv], after the header when the file did not exist
    or was empty -- provided the disk is writable and the header of a
    non-empty file is the column list of the snapshots.  This holds
    however the request to the blacklist server, the time conversion
    and the sleep end. *)
Theorem cycle_appends_new_entries (utc_to_berlin : string -> result string)
    (cw : cycle_world) (w : watcher) (act_df new_entries : DataFrame) :
  well_formed_frame (prev_df w) ->
  pull_returncode cw = 0%Z ->
  feed_csv cw = Some act_df ->
  get_new_entries (prev_df w) act_df = Ok new_entries ->
  empty new_entries = false ->
  disk_writable cw = true ->
  header_for (evaluation_feed w) (prev_df w) = columns (prev_df w) ->
  evaluation_feed (state_of (cycle utc_to_berlin cw w)) =
  Some (contents (evaluation_feed w)
          ++ (if write_header_for (evaluation_feed w)
              then [columns (prev_df w)] else [])
          ++ rows new_entries).
Proof.
  intros Hwf Hpull Hfeed Hdiff Hempty Hdisk Hheader.
  destruct (new_entries_shape (prev_df w) act_df new_entries Hwf Hdiff)
    as [Hcols [Hwf' _]].
  unfold cycle, git_pull, run.
  rewrite Hpull, Hfeed. cbn [Z.eqb print prev_df]. rewrite Hdiff, Hempty, Hdisk.
  match goal with
  | |- context [send_new_entries ?f ?c ?x ?n] =>
      pose proof (send_new_entries_frame f c x n) as [_ [Hsend _]];
      destruct (send_new_entries f c x n) as [w1|w1|e w1]
  end; simpl in Hsend;
    [rewrite (proj1 (proj2 (sleep_frame cw w1))) | cbn [state_of] ..];
    rewrite Hsend; rewrite write_new_entries_verbatim;
    try exact Hwf'; rewrite ?Hcols; try reflexivity;
    destruct (evaluation_feed w) as [[|h t]|]; simpl in *; congruence.
Qed.

Lemma cycle_appends_new_entries_witness :
  evaluation_feed
    (state_of (cycle no_conversion (server_down "09:05" snapshot_ab)
                 {| prev_df := snapshot_a;
                    evaluation_feed := Some [["url"; "discover_time"]; ["a.com"; "t1"]];
                    console := []; posted := [] |})) =
  Some [["url"; "discover_time"]; ["a.com"; "t1"]; ["b.com"; "t2"]].
Proof.
  refine (cycle_appends_new_entries no_conversion (server_down "09:05" snapshot_ab)
            {| prev_df := snapshot_a;
               evaluation_feed := Some [["url"; "discover_time"]; ["a.com"; "t1"]];
               console := []; posted := [] |}
            snapshot_ab
            {| columns := ["url"; "discover_time"]; rows := [["b.com"; "t2"]] |}
            _ eq_refl eq_refl eq_refl eq_refl eq_refl eq_refl).
  split.
  - simpl. repeat constructor; simpl; intuition discriminate.
  - simpl. repeat constructor.
Defined.

(** ** Invariants of the watcher loop *)

Lemma grows_refl (w : watcher) : grows w w.
Proof. repeat split; exists []; rewrite app_nil_r; reflexivity. Qed.

Lemma grows_trans (w1 w2 w3 : watcher) : grows w1 w2 -> grows w2 w3 -> grows w1 w3.
Proof.
  intros [[a Ha] [[b Hb] [c Hc]]] [[a' Ha'] [[b' Hb'] [c' Hc']]].
  repeat split.
  - exists (a ++ a'). rewrite Ha', Ha, app_assoc. reflexivity.
  - exists (b ++ b'). rewrite Hb', Hb, app_assoc. reflexivity.
  - exists (c ++ c'). rewrite Hc', Hc, app_assoc. reflexivity.
Qed.

Lemma grows_print (w : watcher) (l : console_line) : grows w (print w l).
Proof.
  repeat split; simpl; [exists [] | exists [l] | exists []];
    rewrite ?app_nil_r; reflexivity.
Qed.

Lemma grows_set_prev_df (w : watcher) (df : DataFrame) : grows w (set_prev_df w df).
Proof. repeat split; exists []; rewrite app_nil_r; reflexivity. Qed.

Lemma grows_write (w : watcher) (new_entries : DataFrame) :
  grows w (set_evaluation_feed w (write_new_entries (evaluation_feed w) new_entries)).
Proof.
  repeat split; try (exists []; rewrite app_nil_r; reflexivity).
  cbn [evaluation_feed set_evaluation_feed].
  rewrite write_new_entries_file, to_csv_append_contents. cbn [contents].
  eexists. reflexivity.
Qed.

Lemma grows_sleep (cw : cycle_world) (w : watcher) : grows w (state_of (sleep cw w)).
Proof.
  destruct (sleep_frame cw w) as [_ [Hfeed [Hposted Hconsole]]].
  repeat split.
  - exists []. rewrite Hfeed, app_nil_r. reflexivity.
  - exact Hconsole.
  - exists []. rewrite Hposted, app_nil_r. reflexivity.
Qed.

Lemma grows_send (utc_to_berlin : string -> result string) (cw : cycle_world)
    (w : watcher) (new_entries : DataFrame) :
  grows w (state_of (send_new_entries utc_to_berlin cw w new_entries)).
Proof.
  destruct (send_new_entries_frame utc_to_berlin cw w new_entries)
    as [_ [Hfeed [Hposted Hconsole]]].
  repeat split.
  - exists []. rewrite Hfeed, app_nil_r. reflexivity.
  - exact Hconsole.
  - exact Hposted.
Qed.

Lemma grows_cycle (utc_to_berlin : string -> result string) (cw : cycle_world)
    (w : watcher) :
  grows w (state_of (cycle utc_to_berlin cw w)).
Proof.
  unfold cycle.
  set (w0 := print w (PullRepository (pull_time cw))).
  assert (H0 : grows w w0) by apply grows_print.
  destruct (git_pull (pull_returncode cw)); [|exact H0].
  destruct (feed_csv cw) as [act_df|];
    [|exact (grows_trans _ _ _ H0 (grows_print _ _))].
  destruct (get_new_entries (prev_df w0) act_df) as [new_entries|e]; [|exact H0].
  set (w1 := set_prev_df (print w0 _) act_df).
  assert (H1 : grows w w1).
  { apply (grows_trans _ _ _ H0). eapply grows_trans; [apply grows_print|].
    apply grows_set_prev_df. }
  destruct (empty new_entries);
    [exact (grows_trans _ _ _ H1 (grows_sleep _ _))|].
  set (w2 := print w1 WritingNewEntries).
  assert (H2 : grows w w2) by exact (grows_trans _ _ _ H1 (grows_print _ _)).
  destruct (disk_writable cw); [|exact H2].
  set (w3 := set_evaluation_feed w2 _).
  assert (H3 : grows w w3) by exact (grows_trans _ _ _ H2 (grows_write _ _)).
  pose proof (grows_send utc_to_berlin cw w3 new_entries) as Hsend.
  destruct (send_new_entries utc_to_berlin cw w3 new_entries) as [w4|w4|e w4];
    simpl in Hsend.
  - exact (grows_trans _ _ _ (grows_trans _ _ _ H3 Hsend) (grows_sleep _ _)).
  - exact (grows_trans _ _ _ H3 Hsend).
  - exact (grows_trans _ _ _ H3 Hsend).
Qed.

(** An invariant of every iteration, however it ends, is an invariant of
    the loop. *)
Lemma watch_invariant (utc_to_berlin : string -> result string)
    (P : watcher -> Prop) :
  (forall cw w, P w -> P (state_of (cycle utc_to_berlin cw w))) ->
  forall world w, P w -> P (state_of (watch utc_to_berlin world w)).
Proof.
  intros Hstep world. induction world as [|cw rest IH]; intros w Hw; [exact Hw|].
  cbn [watch]. pose proof (Hstep cw w Hw) as Hc.
  destruct (cycle utc_to_berlin cw w) as [w'|w'|e w']; simpl in Hc.
  - apply IH. exact Hc.
  - exact Hc.
  - exact Hc.
Qed.

(** X7.  The watcher is append-only: over any number of iterations and
    whatever the world does, the old records of [evaluation-feed.csv]
    stay where they are with new ones after them, and the same holds
    for the console and for the payloads posted to the blacklist
    server.  Nothing is rewritten or removed, also when the loop stops
    or crashes. *)
Theorem watch_append_only (utc_to_berlin : string -> result string)
    (world : list cycle_world) (w : watcher) :
  grows w (state_of (watch utc_to_berlin world w)).
Proof.
  apply (watch_invariant utc_to_berlin (fun w' => grows w w')).
  - intros cw w' Hw'. exact (grows_trans _ _ _ Hw' (grows_cycle _ _ _)).
  - apply grows_refl.
Qed.






(** ** What the watcher posts *)

Lemma map_result_raise {A B} (f : A -> result B) (xs : list A) (e : exn) :
  map_result f xs = Raise e -> exists x, In x xs /\ f x = Raise e.
Proof.
  induction xs as [|x xs IH]; intros H; simpl in H; [discriminate|].
  destruct (f x) as [y|e'] eqn:Ex.
  - simpl in H. destruct (map_result f xs) as [ys'|e'']; [discriminate|].
    simpl in H. injection H as ->.
    destruct (IH eq_refl) as [x' [Hin Hx']]. exists x'. split; [right|]; assumption.
  - simpl in H. injection H as ->. exists x. split; [left; reflexivity | exact Ex].
Qed.

(** X10.  What [main] posts to the blacklist server for the new
    entries: when the frame has the columns [url] and [discover_time]
    and every discover time converts, exactly one payload is posted,
    with one record per new entry in order, carrying the url of the
    entry, its converted discover time and, for every record, the pull
    time of this iteration; and this whatever the server answers (no
    connection, any status code): the iteration goes on to the sleep.
    When one of the two columns is missing nothing is posted. *)
Theorem send_new_entries_payload (utc_to_berlin : string -> result string)
    (cw : cycle_world) (w : watcher) (new_entries : DataFrame) :
  (In "url" (columns new_entries) ->
   In "discover_time" (columns new_entries) ->
   forall converted,
     map_result
       (fun r => utc_to_berlin (nth (get_loc (columns new_entries) "discover_time") r ""))
       (rows new_entries) = Ok converted ->
     exists w' payload,
       send_new_entries utc_to_berlin cw w new_entries = Running w' /\
       posted w' = posted w ++ [payload] /\
       length payload = length (rows new_entries) /\
       map url payload =
         map (fun r => nth (get_loc (columns new_entries) "url") r "")
             (rows new_entries) /\
       map discover_time payload = converted /\
       Forall (fun q => pulled_time q = pull_time cw) payload) /\
  ((~ In "url" (columns new_entries) \/ ~ In "discover_time" (columns new_entries)) ->
   send_new_entries utc_to_berlin cw w new_entries =
     Running (print w (ColsMissing (length (rows new_entries))))).
Proof.
  split.
  - intros Hurl Htime converted Hconv.
    unfold send_new_entries. cbn [filter].
    apply mem_label_In in Hurl. apply mem_label_In in Htime.
    rewrite Hurl, Htime. cbn [negb].
    assert (Hpayload :
              exists payload,
                map_result
                  (fun r =>
                     t <- utc_to_berlin
                            (nth (get_loc (columns new_entries) "discover_time") r "") ;;
                     Ok {| url := nth (get_loc (columns new_entries) "url") r "";
                           discover_time := t;
                           pulled_time := pull_time cw |})
                  (rows new_entries) = Ok payload /\
                length payload = length (rows new_entries) /\
                map url payload =
                  map (fun r => nth (get_loc (columns new_entries) "url") r "")
                      (rows new_entries) /\
                map discover_time payload = converted /\
                Forall (fun q => pulled_time q = pull_time cw) payload).
    { clear Hurl Htime. revert converted Hconv.
      induction (rows new_entries) as [|r rs IH]; intros converted Hconv.
      - simpl in Hconv. injection Hconv as <-. exists []. repeat split. constructor.
      - simpl in Hconv.
        destruct (utc_to_berlin _) as [t|e] eqn:Et; [|discriminate]. simpl in Hconv.
        destruct (map_result _ rs) as [ts|e] eqn:Ets; [|discriminate].
        simpl in Hconv. injection Hconv as <-.
        destruct (IH ts eq_refl) as [payload [Hmap [Hlen [Hurls [Htimes Hpulled]]]]].
        eexists. cbn [map_result]. rewrite Et. cbn [bind]. rewrite Hmap. cbn [bind].
        split; [reflexivity|]. cbn [length map url discover_time].
        rewrite Hlen, Hurls, Htimes. repeat split. constructor; [reflexivity|exact Hpulled]. }
    destruct Hpayload as [payload [Hmap [Hlen [Hurls [Htimes Hpulled]]]]].
    rewrite Hmap.
    destruct (blacklist_server cw) as [|status_code];
      [|destruct (status_code =? 200)%Z];
      eexists; exists payload; (split; [reflexivity|]);
      simpl; repeat split; assumption.
  - intros Hmissing. unfold send_new_entries. cbn [filter].
    destruct (mem_label "url" (columns new_entries)) eqn:Eu;
      destruct (mem_label "discover_time" (columns new_entries)) eqn:Et;
      try reflexivity.
    apply mem_label_In in Eu. apply mem_label_In in Et. tauto.
Qed.

Lemma send_new_entries_payload_witness :
  exists w' payload,
    send_new_entries no_conversion (server_down "09:05" snapshot_ab)
      fresh_watcher snapshot_ab = Running w' /\
    posted w' = posted fresh_watcher ++ [payload] /\
    length payload = 2 /\
    map url payload = ["a.com"; "b.com"] /\
    map discover_time payload = ["t1"; "t2"] /\
    Forall (fun q => pulled_time q = "09:05") payload.
Proof.
  apply (proj1 (send_new_entries_payload no_conversion
                  (server_down "09:05" snapshot_ab) fresh_watcher snapshot_ab)).
  - simpl. auto.
  - simpl. auto.
  - reflexivity.
Defined.

(** ** How the watcher ends *)

Lemma cycle_stopped (utc_to_berlin : string -> result string)
    (cw : cycle_world) (w w' : watcher) :
  cycle utc_to_berlin cw w = Stopped w' ->
  keyboard_interrupt cw = true /\
  (exists act_df, feed_csv cw = Some act_df) /\
  exists printed, console w' = printed ++ [Sleeping; StoppedByUser].
Proof.
  assert (Hsleep : forall x, sleep cw x = Stopped w' ->
            keyboard_interrupt cw = true /\
            exists printed, console w' = printed ++ [Sleeping; StoppedByUser]).
  { intros x H. unfold sleep in H.
    destruct (keyboard_interrupt cw); [|discriminate].
    injection H as <-. split; [reflexivity|]. exists (console x).
    simpl. rewrite <- app_assoc. reflexivity. }
  unfold cycle.
  destruct (git_pull (pull_returncode cw)); [|discriminate].
  destruct (feed_csv cw) as [act_df|]; [|discriminate].
  destruct (get_new_entries _ act_df) as [new_entries|e]; [|discriminate].
  intros H.
  assert (Hgoal : keyboard_interrupt cw = true /\
                  exists printed, console w' = printed ++ [Sleeping; StoppedByUser]).
  { destruct (empty new_entries); [exact (Hsleep _ H)|].
    destruct (disk_writable cw); [|discriminate].
    match type of H with
    | context [send_new_entries ?f ?c ?x ?n] =>
        destruct (send_new_entries f c x n) as [w1|w1|e w1] eqn:Es
    end; try discriminate.
    - exact (Hsleep _ H).
    - exfalso. unfold send_new_entries in Es.
      destruct (filter _ _); [|discriminate].
      destruct (map_result _ _); [|discriminate].
      destruct (blacklist_server cw) as [|status_code]; [discriminate|].
      destruct (status_code =? 200)%Z; discriminate. }
  destruct Hgoal as [Hkey Hconsole].
  split; [exact Hkey|]. split; [exists act_df; reflexivity | exact Hconsole].
Qed.

(** X11.  The loop leaves through its [break] only on a keyboard
    interrupt during the sleep: when the watcher has stopped, some
    iteration was interrupted, that iteration had found a feed file (an
    iteration without one does not sleep), and the last two lines on the
    console are the sleep line and the farewell. *)
Theorem watch_stops_on_interrupt_only (utc_to_berlin : string -> result string)
    (world : list cycle_world) (w w' : watcher) :
  watch utc_to_berlin world w = Stopped w' ->
  exists cw,
    In cw world /\
    keyboard_interrupt cw = true /\
    (exists act_df, feed_csv cw = Some act_df) /\
    exists printed, console w' = printed ++ [Sleeping; StoppedByUser].
Proof.
  revert w. induction world as [|cw rest IH]; intros w H; [discriminate|].
  cbn [watch] in H.
  destruct (cycle utc_to_berlin cw w) as [w1|w1|e w1] eqn:Ec; try discriminate.
  - destruct (IH w1 H) as [cw' [Hin Hrest]]. exists cw'. split; [right|]; assumption.
  - injection H as <-. exists cw. split; [left; reflexivity|].
    exact (cycle_stopped utc_to_berlin cw w w1 Ec).
Qed.

Lemma watch_stops_on_interrupt_only_witness :
  exists cw,
    In cw [quiet_cycle "09:05" snapshot_a;
           {| pull_time := "09:10"; pull_returncode := 0;
              feed_csv := Some snapshot_a; disk_writable := true;
              blacklist_server := PostStatus 200; keyboard_interrupt := true |}] /\
    keyboard_interrupt cw = true /\
    (exists act_df, feed_csv cw = Some act_df) /\
    exists printed,
      [PullRepository "09:05"; NewEntriesFound 1; WritingNewEntries;
       SendNewEntries 1; Sleeping; PullRepository "09:10"; NoNewEntries;
       Sleeping; StoppedByUser] = printed ++ [Sleeping; StoppedByUser].
Proof.
  exact (watch_stops_on_interrupt_only no_conversion
           [quiet_cycle "09:05" snapshot_a;
            {| pull_time := "09:10"; pull_returncode := 0;
               feed_csv := Some snapshot_a; disk_writable := true;
               blacklist_server := PostStatus 200; keyboard_interrupt := true |}]
           fresh_watcher _ eq_refl).
Defined.

(** X12.  A current snapshot that lacks a column of the snapshot in
    memory ends the watcher: once [git pull] has worked and [feed.csv]
    is read, the selection in [get_new_entries] raises the [KeyError]
    that names exactly the columns of the snapshot in memory which the
    current one lacks, nothing catches it, and the loop ends in that
    iteration with only the line of the pull printed: nothing was
    written to [evaluation-feed.csv] and nothing posted. *)
Theorem watch_crashes_on_missing_column (utc_to_berlin : string -> result string)
    (cw : cycle_world) (rest : list cycle_world) (w : watcher)
    (act_df : DataFrame) (c : string) :
  pull_returncode cw = 0%Z ->
  feed_csv cw = Some act_df ->
  In c (columns (prev_df w)) ->
  ~ In c (columns act_df) ->
  exists missing,
    In c missing /\
    (forall d, In d missing <->
               In d (columns (prev_df w)) /\ ~ In d (columns act_df)) /\
    watch utc_to_berlin (cw :: rest) w =
      Crashed (KeyError missing) (print w (PullRepository (pull_time cw))).
Proof.
  intros Hpull Hfeed Hin Hnot.
  pose proof (missing_label_iff (columns act_df) (columns (prev_df w))) as Hmiss.
  pose proof (get_new_entries_missing_column_aux (prev_df w) act_df) as Haux.
  cbn [watch]. unfold cycle, git_pull, run.
  rewrite Hpull, Z.eqb_refl, Hfeed. cbn [prev_df print].
  destruct (filter (fun c => negb (mem_label c (columns act_df)))
                   (columns (prev_df w))) as [|m ms] eqn:Ef.
  - exfalso. apply (proj2 (Hmiss c)). split; assumption.
  - exists (m :: ms). rewrite Haux.
    split; [apply Hmiss; split; assumption|]. split; [|reflexivity].
    intros d. apply Hmiss.
Qed.

Lemma watch_crashes_on_missing_column_witness :
  watch no_conversion
    [quiet_cycle "09:10" url_only_snapshot; quiet_cycle "09:15" snapshot_ab]
    {| prev_df := snapshot_a; evaluation_feed := Some [["url"; "discover_time"]];
       console := []; posted := [] |} =
  Crashed (KeyError ["discover_time"])
    {| prev_df := snapshot_a; evaluation_feed := Some [["url"; "discover_time"]];
       console := [PullRepository "09:10"]; posted := [] |}.
Proof.
  destruct (watch_crashes_on_missing_column no_conversion
              (quiet_cycle "09:10" url_only_snapshot)
              [quiet_cycle "09:15" snapshot_ab]
              {| prev_df := snapshot_a;
                 evaluation_feed := Some [["url"; "discover_time"]];
                 console := []; posted := [] |}
              url_only_snapshot "discover_time")
    as [missing [_ [_ Hwatch]]].
  - reflexivity.
  - reflexivity.
  - simpl. auto.
  - simpl. intros [H|[]]. discriminate.
  - reflexivity.
Defined.

(** ** The two watchers *)

Lemma send_new_entries_crashed (utc_to_berlin : string -> result string)
    (cw : cycle_world) (w w' : watcher) (new_entries : DataFrame) (e : exn) :
  send_new_entries utc_to_berlin cw w new_entries = Crashed e w' ->
  exists s, utc_to_berlin s = Raise e.
Proof.
  unfold send_new_entries. intros Es.
  destruct (filter _ _); [|discriminate].
  destruct (map_result _ _) as [payload|e2] eqn:Em.
  - destruct (blacklist_server cw) as [|status_code]; [discriminate|].
    destruct (status_code =? 200)%Z; discriminate.
  - injection Es as -> _.
    apply map_result_raise in Em. destruct Em as [r [_ Hr]].
    destruct (utc_to_berlin _) as [t|e3] eqn:Et; [discriminate|].
    simpl in Hr. injection Hr as ->. eexists. exact Et.
Qed.

Lemma send_new_entries_not_stopped (utc_to_berlin : string -> result string)
    (cw : cycle_world) (w w' : watcher) (new_entries : DataFrame) :
  send_new_entries utc_to_berlin cw w new_entries <> Stopped w'.
Proof.
  unfold send_new_entries.
  destruct (filter _ _); [|discriminate].
  destruct (map_result _ _); [|discriminate].
  destruct (blacklist_server cw) as [|status_code]; [discriminate|].
  destruct (status_code =? 200)%Z; discriminate.
Qed.

Lemma sleep_agrees (utc_to_berlin : string -> result string)
    (cw : cycle_world) (a b : watcher) :
  same_files a b -> agrees utc_to_berlin (sleep cw a) (sleep cw b).
Proof.
  intros [Hp Hf]. unfold sleep.
  destruct (keyboard_interrupt cw); simpl; split; assumption.
Qed.

Lemma cycles_agree (utc_to_berlin : string -> result string)
    (cw : cycle_world) (w1 w2 : watcher) :
  same_files w1 w2 ->
  agrees utc_to_berlin (first_cycle cw w1) (cycle utc_to_berlin cw w2).
Proof.
  intros [Hp Hf]. unfold first_cycle, cycle.
  destruct (git_pull (pull_returncode cw)) as [u|e].
  - destruct (feed_csv cw) as [act_df|]; [|split; assumption].
    cbn [print prev_df]. rewrite Hp.
    destruct (get_new_entries (prev_df w2) act_df) as [new_entries|e].
    + destruct (empty new_entries).
      * apply sleep_agrees. split; [reflexivity | exact Hf].
      * destruct (disk_writable cw).
        -- match goal with
           | |- context [send_new_entries ?f ?c ?x ?n] =>
               pose proof (send_new_entries_frame f c x n) as [Hsp [Hsf _]];
               destruct (send_new_entries f c x n) as [w3|w3|e3 w3] eqn:Es
           end.
           ++ apply sleep_agrees. simpl in Hsp, Hsf. split.
              ** rewrite Hsp. reflexivity.
              ** rewrite Hsf. simpl. rewrite Hf. reflexivity.
           ++ exfalso. exact (send_new_entries_not_stopped _ _ _ _ _ Es).
           ++ pose proof (send_new_entries_crashed _ _ _ _ _ _ Es) as Hex.
              unfold sleep. destruct (keyboard_interrupt cw); exact Hex.
        -- left. split; [reflexivity|]. split; [reflexivity | exact Hf].
    + left. split; [reflexivity|]. split; assumption.
  - left. split; [reflexivity|]. split; assumption.
Qed.

(** X13.  The watcher of [data-collection/] extends the first watcher
    (the file at the root) by the request to the blacklist server only:
    on the same world and from states with the same frame in memory and
    the same [evaluation-feed.csv], both loops end the same way
    (running, stopped, or crashed with the same exception) with the
    same frame and the same file -- unless the later watcher crashed
    with an exception of [utc_to_berlin], which the first one does not
    call. *)
Theorem watchers_agree (utc_to_berlin : string -> result string)
    (world : list cycle_world) (w1 w2 : watcher) :
  same_files w1 w2 ->
  agrees utc_to_berlin (first_watch world w1) (watch utc_to_berlin world w2).
Proof.
  revert w1 w2. induction world as [|cw rest IH]; intros w1 w2 Hsame;
    [exact Hsame|].
  cbn [first_watch watch].
  pose proof (cycles_agree utc_to_berlin cw w1 w2 Hsame) as Hc.
  destruct (first_cycle cw w1) as [a|a|e a];
    destruct (cycle utc_to_berlin cw w2) as [b|b|e' b]; simpl in Hc;
    try contradiction; try exact Hc.
  - apply IH. exact Hc.
  - destruct (first_watch rest a); simpl; try exact Hc. right. exact Hc.
Qed.

Lemma watchers_agree_witness :
  same_files fresh_watcher fresh_watcher /\
  agrees no_conversion
    (first_watch [quiet_cycle "09:05" snapshot_a; server_down "09:10" snapshot_ab]
                 fresh_watcher)
    (watch no_conversion
           [quiet_cycle "09:05" snapshot_a; server_down "09:10" snapshot_ab]
           fresh_watcher).
Proof.
  assert (H : same_files fresh_watcher fresh_watcher) by (split; reflexivity).
  split; [exact H|].
  exact (watchers_agree no_conversion
           [quiet_cycle "09:05" snapshot_a; server_down "09:10" snapshot_ab]
           fresh_watcher fresh_watcher H).
Defined.

(** ** The ledger rows of the blacklist server *)

Lemma filter_map_swap {A B} (f : A -> B) (p : B -> bool) (xs : list A) :
  filter p (map f xs) = map f (filter (fun x => p (f x)) xs).
Proof.
  induction xs as [|x xs IH]; [reflexivity|]. simpl.
  destruct (p (f x)); simpl; rewrite IH; reflexivity.
Qed.

Lemma merge_left_on_url_cons (ur : string * ResultRow)
    (res : list (string * ResultRow)) (req : list UrlRecord) :
  merge_left_on_url (ur :: res) req =
  merge_left_on_url [ur] req ++ merge_left_on_url res req.
Proof. unfold merge_left_on_url. cbn [flat_map]. rewrite app_nil_r. reflexivity. Qed.

Lemma merge_left_on_url_one (ur : string * ResultRow) (req : list UrlRecord) :
  length (merge_left_on_url [ur] req) =
    Nat.max 1 (length (filter (fun q => String.eqb (url q) (fst ur)) req)) /\
  map merged_url (merge_left_on_url [ur] req) =
    repeat (fst ur)
           (Nat.max 1 (length (filter (fun q => String.eqb (url q) (fst ur)) req))).
Proof.
  unfold merge_left_on_url. cbn [flat_map]. rewrite app_nil_r.
  destruct (filter (fun q => String.eqb (url q) (fst ur)) req) as [|q qs];
    [split; reflexivity|].
  rewrite length_map, map_map. cbn [merged_url].
  replace (Nat.max 1 (length (q :: qs))) with (length (q :: qs)) by (simpl; lia).
  split; [reflexivity|].
  generalize (q :: qs). intros l. induction l as [|x l IH]; simpl; congruence.
Qed.

(** X14.  How many ledger rows [write_analyzed_urls_to_csv] produces,
    and for which urls: every row of the response frame yields one
    ledger row per record of the request frame with the same stripped
    url, and one when there is none; the rows come in the order of the
    response frame.  So a url that occurs [k] times in the request body
    (and therefore [k] times in the response) is written [k * k]
    times. *)
Theorem ledger_rows_per_result (csv_path : path_state)
    (df_request : list UrlRecord) (df_response : ResultFrame) :
  let out_df := snd (write_analyzed_urls_to_csv csv_path df_request df_response) in
  length out_df =
    list_sum (map (fun r => Nat.max 1 (requests_for df_request r))
                  (result_rows df_response)) /\
  map out_url out_df =
    flat_map (fun r => repeat (strip (request_url r))
                              (Nat.max 1 (requests_for df_request r)))
             (result_rows df_response).
Proof.
  intros out_df. subst out_df. unfold write_analyzed_urls_to_csv. cbn [snd].
  rewrite length_map, map_map.
  change (fun x => out_url (out_row x)) with merged_url.
  induction (result_rows df_response) as [|r rows IH]; [split; reflexivity|].
  cbn [map]. rewrite merge_left_on_url_cons, length_app, map_app.
  destruct IH as [IHlen IHurls]. rewrite IHlen, IHurls.
  destruct (merge_left_on_url_one (strip (request_url r), r)
              (map (fun q => {| url := strip (url q);
                                discover_time := discover_time q;
                                pulled_time := pulled_time q |}) df_request))
    as [Hlen Hurls].
  rewrite Hlen, Hurls. cbn [fst list_sum flat_map].
  unfold requests_for. rewrite filter_map_swap, length_map. cbn [url].
  split; reflexivity.
Qed.

Lemma ledger_rows_per_result_witness :
  length (snd (write_analyzed_urls_to_csv None [record_a; record_a]
                 {| result_columns := gsb_columns;
                    result_rows := [unmatched "a.com"; unmatched "a.com";
                                    unmatched "orphan.com"] |})) = 5 /\
  map out_url
      (snd (write_analyzed_urls_to_csv None [record_a; record_a]
              {| result_columns := gsb_columns;
                 result_rows := [unmatched "a.com"; unmatched "a.com";
                                 unmatched "orphan.com"] |})) =
    ["a.com"; "a.com"; "a.com"; "a.com"; "orphan.com"].
Proof.
  exact (ledger_rows_per_result None [record_a; record_a]
           {| result_columns := gsb_columns;
              result_rows := [unmatched "a.com"; unmatched "a.com";
                              unmatched "orphan.com"] |}).
Defined.

(** ** [ingest_urls] from the request body to the ledger *)

Lemma filter_unique_url (req : list UrlRecord) (q : UrlRecord) :
  NoDup (map url req) -> In q req ->
  filter (fun q' => String.eqb (url q') (url q)) req = [q].
Proof.
  induction req as [|a req IH]; intros Hnd Hin; [destruct Hin|].
  simpl in Hnd. inversion Hnd as [|? ? Hnotin Hnd']; subst. simpl.
  destruct (String.eqb (url a) (url q)) eqn:E.
  - apply String.eqb_eq in E. destruct Hin as [->|Hin].
    + f_equal. apply filter_none. intros x Hx.
      destruct (String.eqb (url x) (url q)) eqn:Ex; [|reflexivity].
      apply String.eqb_eq in Ex. exfalso. apply Hnotin. rewrite <- Ex.
      apply in_map. exact Hx.
    + exfalso. apply Hnotin. rewrite E. apply in_map. exact Hin.
  - destruct Hin as [->|Hin].
    + rewrite String.eqb_refl in E. discriminate.
    + apply IH; assumption.
Qed.

(** With distinct urls in the request frame, a response frame that
    lists urls of the request frame is merged row by row. *)
Lemma merge_one_to_one (req sub : list UrlRecord) (res : list (string * ResultRow)) :
  NoDup (map url req) ->
  incl sub req ->
  map fst res = map url sub ->
  merge_left_on_url res req =
  map (fun p => {| merged_url := fst (fst p);
                   merged_res := snd (fst p);
                   merged_discover_time := Some (discover_time (snd p));
                   merged_pulled_time := Some (pulled_time (snd p)) |})
      (combine res sub).
Proof.
  intros Hnd. revert sub. induction res as [|ur res IH]; intros sub Hincl Hkeys.
  - reflexivity.
  - destruct sub as [|q sub]; [discriminate|].
    simpl in Hkeys. injection Hkeys as Hk Hkeys.
    rewrite merge_left_on_url_cons, (IH sub); [| |exact Hkeys].
    + unfold merge_left_on_url at 1. cbn [flat_map]. rewrite app_nil_r, Hk.
      rewrite (filter_unique_url req q Hnd (Hincl q (or_introl eq_refl))).
      rewrite <- Hk. reflexivity.
    + intros x Hx. apply Hincl. right. exact Hx.
Qed.

Lemma map_combine_fst {A B C} (f : A -> C) (xs : list A) (ys : list B) :
  length xs = length ys -> map (fun p => f (fst p)) (combine xs ys) = map f xs.
Proof.
  revert ys. induction xs as [|x xs IH]; intros [|y ys] H; try discriminate;
    [reflexivity|].
  simpl. f_equal. apply IH. simpl in H. lia.
Qed.

Lemma map_combine_snd {A B C} (f : B -> C) (xs : list A) (ys : list B) :
  length xs = length ys -> map (fun p => f (snd p)) (combine xs ys) = map f ys.
Proof.
  revert ys. induction xs as [|x xs IH]; intros [|y ys] H; try discriminate;
    [reflexivity|].
  simpl. f_equal. apply IH. simpl in H. lia.
Qed.

(** X15.  From the request body to the ledger: when the ledger file can
    be written, the stripped urls of the records are pairwise distinct
    and the service answers every batch with a well-formed reply,
    [ingest_urls] sends the stripped
    non-empty urls in batches of 500 and appends exactly one ledger row
    per record with a non-empty url, in the order of the body, made of
    the stripped url, the discover time and the pull time of that
    record and the match, request time and label the service gave for
    that url; records with an empty url are neither sent nor written. *)
Theorem ingest_urls_one_row_per_record (w : gsb_world) (csv_path : path_state)
    (data : list UrlRecord) :
  ledger_disk w = Writable ->
  NoDup (map (fun x => strip (url x)) data) ->
  (forall i batch,
      In (i, batch)
         (enumerate (chunks (map (fun x => strip (url x)) (asked data)) 500) 1) ->
      well_formed_reply (gsb w i batch) = true) ->
  exists written,
    ingest_urls w csv_path data =
      (to_csv_append csv_path (write_header_for csv_path) out_cols
         (map csv_record written),
       chunks (map (fun x => strip (url x)) (asked data)) 500,
       Ok written) /\
    map out_url written = map (fun x => strip (url x)) (asked data) /\
    map out_discover_time written = map discover_time (asked data) /\
    map out_pulled_time written = map pulled_time (asked data) /\
    map (fun row => (out_match_json_obj row, out_request_time row, out_label row))
        written =
    map (fun r => (match_json_obj r, request_time r, label r))
        (flat_map (expected_rows w)
           (enumerate (chunks (map (fun x => strip (url x)) (asked data)) 500) 1)).
Proof.
  intros Hdisk Hnd Hwf.
  destruct (request_gsb_api_well_formed w _ Hwf)
    as [rows [Hcall [Hlen [Hurls [Hrows _]]]]].
  unfold ingest_urls. fold (asked data). rewrite Hcall, Hdisk.
  unfold write_analyzed_urls_to_csv. cbn [result_rows].
  set (norm := fun q => {| url := strip (url q);
                           discover_time := discover_time q;
                           pulled_time := pulled_time q |}).
  set (res := map (fun r => (strip (request_url r), r)) rows).
  assert (Hkeys : map fst res = map url (map norm (asked data))).
  { unfold res. rewrite !map_map. cbn [fst url norm].
    rewrite <- (map_map request_url strip), Hurls, map_map.
    apply map_ext. intros x. apply strip_idempotent. }
  assert (Hmerge := merge_one_to_one (map norm data) (map norm (asked data)) res).
  rewrite Hmerge; clear Hmerge.
  - assert (Hsame : length res = length (map norm (asked data))).
    { unfold res. rewrite !length_map, Hlen, length_map. reflexivity. }
    eexists. split; [reflexivity|].
    rewrite !map_map. cbn [out_row out_url out_discover_time out_pulled_time
                           out_match_json_obj out_request_time out_label
                           merged_url merged_res merged_discover_time
                           merged_pulled_time fillna].
    split; [|split; [|split]].
    + rewrite (map_combine_fst fst res _ Hsame).
      rewrite Hkeys, map_map. reflexivity.
    + rewrite (map_combine_snd discover_time res _ Hsame), map_map. reflexivity.
    + rewrite (map_combine_snd pulled_time res _ Hsame), map_map. reflexivity.
    + rewrite (map_combine_fst
                 (fun ur => (match_json_obj (snd ur), request_time (snd ur),
                             label (snd ur))) res _ Hsame).
      unfold res. rewrite map_map. cbn [snd]. rewrite Hrows. reflexivity.
  - rewrite map_map. exact Hnd.
  - intros q Hq. apply in_map_iff in Hq. destruct Hq as [x [<- Hx]].
    apply in_map. unfold asked in Hx. apply filter_In in Hx. exact (proj1 Hx).
  - exact Hkeys.
Qed.

Lemma ingest_urls_one_row_per_record_witness :
  exists written,
    ingest_urls flagging_world None
      [{| url := " x.com "; discover_time := "d1"; pulled_time := "p" |};
       record_without_url;
       {| url := "y.com"; discover_time := "d2"; pulled_time := "p" |}] =
      (to_csv_append None (write_header_for None) out_cols (map csv_record written),
       [["x.com"; "y.com"]], Ok written) /\
    map out_url written = ["x.com"; "y.com"] /\
    map out_discover_time written = ["d1"; "d2"] /\
    map out_pulled_time written = ["p"; "p"] /\
    map out_label written = [0; 1]%Z.
Proof.
  destruct (ingest_urls_one_row_per_record flagging_world None
              [{| url := " x.com "; discover_time := "d1"; pulled_time := "p" |};
               record_without_url;
               {| url := "y.com"; discover_time := "d2"; pulled_time := "p" |}])
    as [written [Hcall [Hurls [Hdisc [Hpull Hrest]]]]].
  - reflexivity.
  - simpl. repeat constructor; simpl; intuition discriminate.
  - intros i batch _. reflexivity.
  - exists written. repeat split; try assumption.
    assert (H : map (fun t => snd t)
                    (map (fun row => (out_match_json_obj row, out_request_time row,
                                      out_label row)) written) = [0; 1]%Z)
      by (rewrite Hrest; reflexivity).
    rewrite map_map in H. exact H.
Defined.

Lemma request_gsb_api_posts_prefix_aux (w : gsb_world) (url_list : list string) :
  is_ok (snd (request_gsb_api w url_list)) = false ->
  fst (request_gsb_api w url_list) <> [].
Proof.
  unfold request_gsb_api.
  destruct (gsb_loop_sent w (enumerate (chunks url_list 500) 1) [] [])
    as [k [Hk [Hsent [_ Hfail]]]].
  destruct (gsb_loop w (enumerate (chunks url_list 500) 1) [] []) as [sent r].
  cbn [fst snd] in *. rewrite is_ok_bind_ok. intros H Hnil.
  specialize (Hfail H). rewrite Hnil in Hsent. cbn [app] in Hsent.
  destruct k; [lia|].
  destruct (enumerate (chunks url_list 500) 1); [simpl in Hk; lia|discriminate].
Qed.

Lemma request_gsb_api_ok (w : gsb_world) (url_list : list string) :
  is_ok (snd (request_gsb_api w url_list)) =
  forallb (fun ib => well_formed_reply (gsb w (fst ib) (snd ib)))
          (enumerate (chunks url_list 500) 1).
Proof.
  unfold request_gsb_api.
  pose proof (gsb_loop_ok w (enumerate (chunks url_list 500) 1) [] []) as Hok.
  destruct (gsb_loop w (enumerate (chunks url_list 500) 1) [] []) as [sent r].
  cbn [snd] in *. rewrite is_ok_bind_ok. exact Hok.
Qed.

(** X16.  A request that fails leaves the ledger alone: when the reply
    to some batch of the stripped non-empty urls is not well-formed,
    [ingest_urls] raises the exception of [request_gsb_api] before line
    156 is reached, so the ledger file is exactly as it was (no row is
    written for the batches that were answered), although at least one
    batch was sent.  And when it returns normally, every batch got a
    well-formed reply, the disk took the write, and the ledger file is
    the old one with the header rule applied and the returned rows
    appended. *)
Theorem ingest_urls_failed_request_writes_nothing (w : gsb_world)
    (csv_path : path_state) (data : list UrlRecord) :
  ((exists i batch,
       In (i, batch)
          (enumerate (chunks (map (fun x => strip (url x)) (asked data)) 500) 1) /\
       well_formed_reply (gsb w i batch) = false) ->
   exists e,
     snd (request_gsb_api w (map (fun x => strip (url x)) (asked data))) = Raise e /\
     ingest_urls w csv_path data =
       (csv_path,
        fst (request_gsb_api w (map (fun x => strip (url x)) (asked data))),
        Raise e) /\
     fst (request_gsb_api w (map (fun x => strip (url x)) (asked data))) <> []) /\
  (forall written,
      snd (ingest_urls w csv_path data) = Ok written ->
      (forall i batch,
          In (i, batch)
             (enumerate (chunks (map (fun x => strip (url x)) (asked data)) 500) 1) ->
          well_formed_reply (gsb w i batch) = true) /\
      ledger_disk w = Writable /\
      fst (fst (ingest_urls w csv_path data)) =
      to_csv_append csv_path (write_header_for csv_path) out_cols
        (map csv_record written)).
Proof.
  pose proof (request_gsb_api_ok w (map (fun x => strip (url x)) (asked data))) as Hok.
  pose proof (request_gsb_api_posts_prefix_aux w
                (map (fun x => strip (url x)) (asked data))) as Hsent.
  unfold ingest_urls. fold (asked data).
  destruct (request_gsb_api w (map (fun x => strip (url x)) (asked data)))
    as [sent [res_df|e]]; cbn [fst snd is_ok] in *.
  - symmetry in Hok. rewrite forallb_forall in Hok. split.
    + intros [i [batch [Hin Hbad]]].
      specialize (Hok (i, batch) Hin). cbn [fst snd] in Hok.
      rewrite Hbad in Hok. discriminate.
    + intros written H. destruct (ledger_disk w); [|discriminate].
      unfold write_analyzed_urls_to_csv in *. cbn [fst snd] in *.
      injection H as <-. split; [|split; reflexivity].
      intros i batch Hin. exact (Hok (i, batch) Hin).
  - split.
    + intros _. exists e. split; [reflexivity|]. split; [reflexivity|].
      apply Hsent. reflexivity.
    + discriminate.
Qed.

Lemma ingest_urls_failed_request_writes_nothing_witness :
  exists e,
    snd (request_gsb_api unreachable_world ["a.com"]) = Raise e /\
    ingest_urls unreachable_world (Some [out_cols]) [record_a] =
      (Some [out_cols], fst (request_gsb_api unreachable_world ["a.com"]), Raise e) /\
    fst (request_gsb_api unreachable_world ["a.com"]) <> [].
Proof.
  apply (proj1 (ingest_urls_failed_request_writes_nothing unreachable_world
                  (Some [out_cols]) [record_a])).
  exists 1, ["a.com"]. split; [vm_compute; left; reflexivity|reflexivity].
Defined.

(** ** Lexical features *)

Lemma count_single_step (c b : ascii) (s : string) :
  count_from (String c EmptyString) (String b s) 0 =
  (if Ascii.eqb c b then 1 else 0) + count_from (String c EmptyString) s 0.
Proof. simpl. destruct (Ascii.eqb c b); reflexivity. Qed.

Lemma double_slash_scan (s : string) :
  2 * count_from "//" s 0 <= count_from "/" s 0 /\
  2 * count_from "//" s 1 + (if startswith "/" s then 1 else 0)
    <= count_from "/" s 0.
Proof.
  induction s as [|b s [IH0 IH1]]; [simpl; lia|].
  rewrite count_single_step. split.
  - cbn [count_from]. cbn [startswith String.length Nat.sub].
    destruct (Ascii.eqb "/" b) eqn:Eb; cbn [andb].
    + destruct s as [|d s']; [simpl in *; lia|].
      cbn [startswith] in IH1.
      destruct (Ascii.eqb "/" d); cbn [andb] in *; lia.
    + lia.
  - cbn [count_from startswith]. destruct (Ascii.eqb "/" b); cbn [andb]; lia.
Qed.

(** X17.  Relations between the counting features of an url: the
    non-overlapping double slashes take two slashes each, so twice
    [url_double_slash_count] is at most [url_slash_count]; and slashes,
    dots and dashes are different characters, so the three counts
    together are at most [url_char_count]. *)
Theorem counting_features_bounds (url : string) :
  2 * url_double_slash_count url <= url_slash_count url /\
  url_slash_count url + url_dot_count url + url_dash_count url
    <= url_char_count url.
Proof.
  split; [exact (proj1 (double_slash_scan url))|].
  unfold url_slash_count, url_dot_count, url_dash_count, url_char_count, str_count.
  induction url as [|b url IH]; [simpl; lia|].
  rewrite !count_single_step. cbn [String.length].
  destruct (Ascii.eqb "/" b) eqn:E1; destruct (Ascii.eqb "." b) eqn:E2;
    destruct (Ascii.eqb "-" b) eqn:E3;
    try (apply Ascii.eqb_eq in E1); try (apply Ascii.eqb_eq in E2);
    try (apply Ascii.eqb_eq in E3); subst; try discriminate; lia.
Qed.

Lemma length_snoc (run : string) (c : ascii) :
  String.length (run ++ String c EmptyString) = S (String.length run).
Proof. induction run as [|a run IH]; simpl; [reflexivity | rewrite IH; reflexivity]. Qed.

(** A run of a class is no longer than the number of characters of the
    class. *)
Lemma findall_from_bound (cls : ascii -> bool) (text run r : string) :
  In r (findall_from cls run text) ->
  String.length r
    <= String.length run + length (filter cls (list_ascii_of_string text)).
Proof.
  revert run. induction text as [|c text IH]; intros run Hin; simpl in *.
  - destruct run; [destruct Hin|]. destruct Hin as [<-|[]]. lia.
  - destruct (cls c).
    + apply IH in Hin. rewrite length_snoc in Hin. simpl. lia.
    + destruct run as [|a run].
      * apply IH in Hin. simpl in Hin. lia.
      * destruct Hin as [<-|Hin]; [lia|]. apply IH in Hin. simpl in *. lia.
Qed.

Lemma max_by_len_in (best : string) (sequences : list string) :
  In (max_by_len best sequences) (best :: sequences).
Proof.
  revert best. induction sequences as [|s rest IH]; intros best; simpl; [auto|].
  destruct (String.length best <? String.length s).
  - right. apply IH.
  - destruct (IH best) as [H|H]; [left | right; right]; exact H.
Qed.

Lemma max_by_len_longest (best x : string) (sequences : list string) :
  In x (best :: sequences) ->
  String.length x <= String.length (max_by_len best sequences).
Proof.
  revert best x. induction sequences as [|s rest IH]; intros best x Hin.
  - destruct Hin as [<-|[]]. simpl. lia.
  - cbn [max_by_len].
    pose proof (IH s s (or_introl eq_refl)) as Hs.
    pose proof (IH best best (or_introl eq_refl)) as Hb.
    destruct (String.length best <? String.length s) eqn:E.
    + apply Nat.ltb_lt in E. destruct Hin as [<-|[<-|Hin]].
      * lia.
      * exact Hs.
      * apply IH. right. exact Hin.
    + apply Nat.ltb_ge in E. destruct Hin as [<-|[<-|Hin]].
      * exact Hb.
      * lia.
      * apply IH. right. exact Hin.
Qed.

Lemma longest_at_most_count (cls : ascii -> bool) (text : string) :
  get_longest_sequence_length cls text
    <= length (filter cls (list_ascii_of_string text)).
Proof.
  unfold get_longest_sequence_length, findall.
  destruct (findall_from cls EmptyString text) as [|s rest] eqn:E; [lia|].
  apply (findall_from_bound cls text EmptyString). rewrite E. apply max_by_len_in.
Qed.

Lemma findall_from_first (cls : ascii -> bool) (text run : string) :
  run <> EmptyString ->
  exists r rest,
    findall_from cls run text = r :: rest /\ String.length run <= String.length r.
Proof.
  revert run. induction text as [|c text IH]; intros run Hrun; simpl.
  - destruct run; [congruence|]. eexists. eexists. split; [reflexivity | lia].
  - destruct (cls c).
    + destruct (IH (run ++ String c EmptyString)%string) as [r [rest [Hr Hlen]]].
      * destruct run; discriminate.
      * exists r, rest. split; [exact Hr|]. rewrite length_snoc in Hlen. lia.
    + destruct run; [congruence|]. eexists. eexists. split; [reflexivity | lia].
Qed.

Lemma longest_of_first_char (cls : ascii -> bool) (c : ascii) (text : string) :
  cls c = true -> 1 <= get_longest_sequence_length cls (String c text).
Proof.
  intros Hc. unfold get_longest_sequence_length, findall. simpl. rewrite Hc.
  destruct (findall_from_first cls text (String c EmptyString)) as [r [rest [Hr Hlen]]];
    [discriminate|].
  rewrite Hr. simpl in Hlen.
  etransitivity; [exact Hlen|]. apply max_by_len_longest. left. reflexivity.
Qed.

Lemma letter_is_no_digit (c : ascii) : ascii_letter c = true -> ascii_digit c = false.
Proof.
  unfold ascii_letter, ascii_digit. cbv zeta. intros H.
  apply orb_true_iff in H.
  destruct (48 <=? nat_of_ascii c) eqn:E1; [|reflexivity].
  destruct (nat_of_ascii c <=? 57) eqn:E2; [|reflexivity].
  apply Nat.leb_le in E1, E2. exfalso.
  destruct H as [H|H]; apply andb_true_iff in H; destruct H as [Ha Hb];
    apply Nat.leb_le in Ha, Hb; lia.
Qed.

Lemma classes_partition (text : string) :
  length (filter ascii_letter (list_ascii_of_string text))
  + length (filter ascii_digit (list_ascii_of_string text))
  + length (filter not_alphanumeric (list_ascii_of_string text))
  = String.length text.
Proof.
  induction text as [|c text IH]; [reflexivity|]. simpl.
  unfold not_alphanumeric at 1.
  destruct (ascii_letter c) eqn:El.
  - rewrite (letter_is_no_digit c El). simpl. lia.
  - destruct (ascii_digit c); simpl; lia.
Qed.

(** X18.  The numerator of [calculate_char_continuation_rate]: the
    longest run of letters, the longest run of digits and the longest
    run of other characters together are at most the length of the url,
    and at least 1 for a non-empty url; so the rate the function
    returns for a non-empty url is positive and at most 1. *)
Theorem char_continuation_bounds (url : string) :
  total_longest_length url <= total_url_length url /\
  (url <> EmptyString -> 1 <= total_longest_length url).
Proof.
  unfold total_longest_length, total_url_length. split.
  - rewrite <- (classes_partition url).
    pose proof (longest_at_most_count ascii_letter url).
    pose proof (longest_at_most_count ascii_digit url).
    pose proof (longest_at_most_count not_alphanumeric url). lia.
  - intros Hne. destruct url as [|c url]; [congruence|].
    destruct (ascii_letter c) eqn:El.
    + pose proof (longest_of_first_char ascii_letter c url El). lia.
    + destruct (ascii_digit c) eqn:Ed.
      * pose proof (longest_of_first_char ascii_digit c url Ed). lia.
      * assert (Ho : not_alphanumeric c = true)
          by (unfold not_alphanumeric; rewrite El, Ed; reflexivity).
        pose proof (longest_of_first_char not_alphanumeric c url Ho). lia.
Qed.

Lemma char_continuation_bounds_witness :
  "http://ab12.c-om/x?y=123456" <> EmptyString /\
  total_longest_length "http://ab12.c-om/x?y=123456" = 13 /\
  total_url_length "http://ab12.c-om/x?y=123456" = 27 /\
  1 <= total_longest_length "http://ab12.c-om/x?y=123456"
    <= total_url_length "http://ab12.c-om/x?y=123456".
Proof.
  assert (Hne : "http://ab12.c-om/x?y=123456" <> EmptyString) by discriminate.
  split; [exact Hne|]. split; [reflexivity|]. split; [reflexivity|].
  destruct (char_continuation_bounds "http://ab12.c-om/x?y=123456") as [Hle Hge].
  split; [exact (Hge Hne) | exact Hle].
Defined.

(** ** The clean-up script *)

Lemma drop_duplicate_urls_spec (df : list url_row) (seen : list string) :
  NoDup (map fst (drop_duplicate_urls_from seen df)) /\
  forall u, In u (map fst (drop_duplicate_urls_from seen df)) <->
            In u (map fst df) /\ ~ In u seen.
Proof.
  revert seen. induction df as [|r df IH]; intros seen; simpl.
  - split; [constructor|]. intros u. tauto.
  - destruct (mem_label (fst r) seen) eqn:E.
    + apply mem_label_In in E. destruct (IH seen) as [Hnd Hin].
      split; [exact Hnd|]. intros u. rewrite Hin. split.
      * tauto.
      * intros [[<-|H] Hn]; [contradiction | tauto].
    + assert (Hr : ~ In (fst r) seen).
      { intros H. apply mem_label_In in H. congruence. }
      destruct (IH (fst r :: seen)) as [Hnd Hin]. simpl. split.
      * constructor; [|exact Hnd]. rewrite Hin. simpl. tauto.
      * intros u. rewrite Hin. simpl. split.
        -- intros [<-|[H Hn]]; [tauto|]. split; [tauto|]. tauto.
        -- intros [[<-|H] Hn]; [tauto|].
           destruct (string_dec (fst r) u) as [->|Hne]; [tauto|]. right. tauto.
Qed.

Lemma keep_common_urls (urls_eval urls_black : list string) (df : list url_row) :
  NoDup (map fst (keep_common urls_eval urls_black df)) /\
  forall u, In u (map fst (keep_common urls_eval urls_black df)) <->
            In u (map fst df) /\ In u urls_eval /\ In u urls_black.
Proof.
  unfold keep_common.
  destruct (drop_duplicate_urls_spec
              (filter (fun r => mem_label (fst r) urls_eval
                                && mem_label (fst r) urls_black) df) [])
    as [Hnd Hin].
  split; [exact Hnd|]. intros u. rewrite Hin, !in_map_iff. split.
  - intros [[r [<- Hr]] _]. apply filter_In in Hr. destruct Hr as [Hr Hc].
    apply andb_true_iff in Hc. destruct Hc as [He Hb].
    apply mem_label_In in He. apply mem_label_In in Hb.
    split; [exists r; auto | auto].
  - intros [[r [<- Hr]] [He Hb]]. split; [|intros []].
    exists r. split; [reflexivity|]. apply filter_In. split; [exact Hr|].
    apply andb_true_iff. split; apply mem_label_In; assumption.
Qed.

(** X19.  After the clean-up script both files list the same urls, the
    stripped urls that occur in both inputs, each exactly once: the two
    outputs have the same number of rows, and every row kept is a row
    of its input with the url stripped. *)
Theorem filter_duplicate_and_unique_data_same_urls (eval_df black_df : list url_row) :
  let eval_clean := fst (filter_duplicate_and_unique_data eval_df black_df) in
  let black_clean := snd (filter_duplicate_and_unique_data eval_df black_df) in
  NoDup (map fst eval_clean) /\
  NoDup (map fst black_clean) /\
  (forall u, In u (map fst eval_clean) <->
             In u (map strip (map fst eval_df)) /\
             In u (map strip (map fst black_df))) /\
  (forall u, In u (map fst eval_clean) <-> In u (map fst black_clean)) /\
  length eval_clean = length black_clean /\
  incl eval_clean (clean_urls eval_df) /\
  incl black_clean (clean_urls black_df).
Proof.
  intros eval_clean black_clean. subst eval_clean black_clean.
  unfold filter_duplicate_and_unique_data. cbn [fst snd].
  assert (He : map fst (clean_urls eval_df) = map strip (map fst eval_df))
    by (unfold clean_urls; rewrite !map_map; reflexivity).
  assert (Hb : map fst (clean_urls black_df) = map strip (map fst black_df))
    by (unfold clean_urls; rewrite !map_map; reflexivity).
  destruct (keep_common_urls (map fst (clean_urls eval_df))
              (map fst (clean_urls black_df)) (clean_urls eval_df))
    as [Hnd1 Hin1].
  destruct (keep_common_urls (map fst (clean_urls eval_df))
              (map fst (clean_urls black_df)) (clean_urls black_df))
    as [Hnd2 Hin2].
  assert (Hsame : forall u,
             In u (map fst (keep_common (map fst (clean_urls eval_df))
                              (map fst (clean_urls black_df)) (clean_urls eval_df))) <->
             In u (map fst (keep_common (map fst (clean_urls eval_df))
                              (map fst (clean_urls black_df)) (clean_urls black_df)))).
  { intros u. rewrite Hin1, Hin2. tauto. }
  assert (Hincl : forall df, incl (keep_common (map fst (clean_urls eval_df))
                                     (map fst (clean_urls black_df)) df) df).
  { intros df r Hr. unfold keep_common in Hr.
    assert (Hsub : forall seen l, incl (drop_duplicate_urls_from seen l) l).
    { intros seen l. revert seen. induction l as [|x l IH]; intros seen y Hy;
        simpl in Hy; [destruct Hy|].
      destruct (mem_label (fst x) seen).
      - right. exact (IH _ _ Hy).
      - destruct Hy as [<-|Hy]; [left; reflexivity | right; exact (IH _ _ Hy)]. }
    apply Hsub in Hr. apply filter_In in Hr. exact (proj1 Hr). }
  split; [exact Hnd1|]. split; [exact Hnd2|]. split; [|split; [exact Hsame|split]].
  - intros u. rewrite Hin1, He, Hb. tauto.
  - assert (Hl : length (map fst (keep_common (map fst (clean_urls eval_df))
                                    (map fst (clean_urls black_df))
                                    (clean_urls eval_df))) =
                 length (map fst (keep_common (map fst (clean_urls eval_df))
                                    (map fst (clean_urls black_df))
                                    (clean_urls black_df)))).
    { apply Nat.le_antisymm; apply NoDup_incl_length; try assumption;
        intros u Hu; apply Hsame; exact Hu. }
    rewrite !length_map in Hl. exact Hl.
  - split; apply Hincl.
Qed.
